(** * LaunchKit documentation site: navigation tree and content tree

    The repository is a Starlight documentation site.  Its own code is one
    configuration module, [astro.config.mjs], whose default export passes an
    object literal to the framework; everything else is content: Markdown and
    MDX documents with a YAML front-matter block, and a README.

    This development embeds
    - the object literal of [astro.config.mjs] as a JavaScript value
      ([JsValue]: strings, arrays, objects with their keys in written order);
    - the content documents under [src/content/docs/], each with its path and
      the key/value lines of its front-matter;
    - the command tables of [README.md];
    and states the link-integrity, shape and coverage properties of that data.

    The guides also carry the code of the application they document: the
    theme toggle, the SEO tags, the API routes, the Stripe helpers and
    webhook, and the SQL of the profiles table with the functions that use
    it.  The second part embeds those functions and proves how they behave
    on missing fields, failing services and foreign rows. *)

From Stdlib Require PrimFloat.
From stdpp Require Import base option list strings.

Local Open Scope string_scope.

#[local] Set Warnings "-register-all".

(** ** JavaScript values of the configuration literal *)

Module Js.

(** The fragment of JavaScript values the configuration literal uses: string
    literals, array literals and object literals.  An object keeps its
    properties in the order they are written. *)
Inductive JsValue : Type :=
| JStr (s : string)
| JArr (elems : list JsValue)
| JObj (props : list (string * JsValue)).

(** Property access [o.key] on an object literal: when a key is written
    twice the later property wins; [None] stands for [undefined]. *)
Fixpoint get_prop (key : string) (props : list (string * JsValue))
    : option JsValue :=
  match props with
  | [] => None
  | (k, v) :: rest =>
      match get_prop key rest with
      | Some w => Some w
      | None => if String.eqb k key then Some v else None
      end
  end.

Definition get (key : string) (v : JsValue) : option JsValue :=
  match v with
  | JObj props => get_prop key props
  | _ => None
  end.

(** [key in o]. *)
Definition has_key (key : string) (v : JsValue) : bool :=
  match get key v with Some _ => true | None => false end.

Definition has_string (key : string) (v : JsValue) : bool :=
  match get key v with Some (JStr _) => true | _ => false end.

Definition has_array (key : string) (v : JsValue) : bool :=
  match get key v with Some (JArr _) => true | _ => false end.

Definition get_string (key : string) (v : JsValue) : option string :=
  match get key v with Some (JStr s) => Some s | _ => None end.

Definition get_array (key : string) (v : JsValue) : option (list JsValue) :=
  match get key v with Some (JArr l) => Some l | _ => None end.

End Js.

Import Js.

(** ** astro.config.mjs *)

Module Config.

(** [sidebar: [...]], lines 17-50. *)
Definition sidebar : JsValue :=
  JArr [
    JObj [
      ("label", JStr "Getting Started");
      ("items", JArr [
        JObj [("label", JStr "Get Started"); ("slug", JStr "guides/getting-started")];
        JObj [("label", JStr "Ship in 5 Minutes"); ("slug", JStr "guides/ship-in-5-minutes")]
      ])
    ];
    JObj [
      ("label", JStr "Core Features");
      ("items", JArr [
        JObj [("label", JStr "Authentication"); ("slug", JStr "guides/authentication")];
        JObj [("label", JStr "Database"); ("slug", JStr "guides/database")];
        JObj [("label", JStr "Payments"); ("slug", JStr "guides/payments")];
        JObj [("label", JStr "Email Integration"); ("slug", JStr "guides/emails")];
        JObj [("label", JStr "SEO & Marketing"); ("slug", JStr "guides/seo")];
        JObj [("label", JStr "Deployment"); ("slug", JStr "guides/deployment")]
      ])
    ];
    JObj [
      ("label", JStr "Support & Quality");
      ("items", JArr [
        JObj [("label", JStr "Customer Support"); ("slug", JStr "guides/customer-support")];
        JObj [("label", JStr "Error Handling"); ("slug", JStr "guides/error-handling")]
      ])
    ];
    JObj [
      ("label", JStr "Reference");
      ("items", JArr [
        JObj [("label", JStr "Components"); ("slug", JStr "reference/components")];
        JObj [("label", JStr "API Reference"); ("slug", JStr "reference/api")]
      ])
    ]
  ].



End Config.

Import Config.

(** ** Walking the navigation tree *)

Module Nav.

(** The child entries of a node: the elements of its [items] array, none
    when there is no such array. *)
Definition children (v : JsValue) : list JsValue :=
  default [] (get_array "items" v).

(** Every entry of the tree below [v], in document order: an object counts
    itself and what its [items] property holds, an array what its elements
    hold. *)
Fixpoint nodes (v : JsValue) : list JsValue :=
  match v with
  | JStr _ => []
  | JArr elems => flat_map nodes elems
  | JObj props =>
      v :: flat_map
             (λ kv, if String.eqb kv.1 "items" then nodes kv.2 else [])
             props
  end.

(** The two shapes of an entry. *)
Definition is_group (v : JsValue) : bool :=
  has_string "label" v && has_array "items" v && negb (has_key "slug" v).

Definition is_leaf (v : JsValue) : bool :=
  has_string "label" v && has_string "slug" v && negb (has_key "items" v).

Definition leaves (v : JsValue) : list JsValue := filter (λ n, is_leaf n = true) (nodes v).
Definition groups (v : JsValue) : list JsValue := filter (λ n, is_group n = true) (nodes v).

(** Label and slug of an entry that has both as strings. *)
Definition label_slug (n : JsValue) : option (string * string) :=
  l ← get_string "label" n; s ← get_string "slug" n; Some (l, s).

Definition leaf_pairs (v : JsValue) : list (string * string) :=
  omap label_slug (leaves v).

Definition leaf_slugs (v : JsValue) : list string :=
  omap (get_string "slug") (leaves v).
Definition leaf_labels (v : JsValue) : list string :=
  omap (get_string "label") (leaves v).
Definition group_labels (v : JsValue) : list string :=
  omap (get_string "label") (groups v).

End Nav.

Import Nav.

(** ** The content tree *)

Module Content.

(** A content document: where the file lives in the repository and the
    key/value lines of its front-matter block, in written order. *)
Record ContentDoc : Type := {
  doc_path : string;
  front_matter : list (string * string)
}.

(** The directory Starlight reads ([README.md], line 107). *)
Definition content_root : string := "src/content/docs/".

(** [strip_prefix p s] is what follows [p] in [s], when [s] starts with [p]. *)
Fixpoint strip_prefix (p s : string) : option string :=
  match p, s with
  | EmptyString, _ => Some s
  | String a p', String b s' =>
      if Ascii.eqb a b then strip_prefix p' s' else None
  | String _ _, EmptyString => None
  end.

(** [split_ext s] cuts [s] at its last dot: the stem, and the extension when
    there is a dot. *)
Fixpoint split_ext (s : string) : string * option string :=
  match s with
  | EmptyString => (EmptyString, None)
  | String c rest =>
      match split_ext rest with
      | (stem, Some e) => (String c stem, Some e)
      | (stem, None) =>
          if Ascii.eqb c (Ascii.ascii_of_nat 46) then (EmptyString, Some stem)
          else (String c stem, None)
      end
  end.

(** The separator of a file name and its extension, and the strings free
    of it. *)
Definition dot : string := String (Ascii.ascii_of_nat 46) EmptyString.

Fixpoint dotless (s : string) : bool :=
  match s with
  | EmptyString => true
  | String c rest => negb (Ascii.eqb c (Ascii.ascii_of_nat 46)) && dotless rest
  end.

Definition is_markdown_ext (e : string) : bool :=
  String.eqb e "md" || String.eqb e "mdx".

(** The route of a file, as [README.md] line 107 describes the framework's
    rule: a [.md] or [.mdx] file under the content root is exposed under its
    path relative to that root, extension dropped.  Other files get no
    route.  (None of the repository's files is an index file or has an
    upper-case name, so the framework's further normalisation is idle.) *)
Definition route_of_path (path : string) : option string :=
  rel ← strip_prefix content_root path;
  match split_ext rel with
  | (stem, Some e) => if is_markdown_ext e then Some stem else None
  | (_, None) => None
  end.

Definition route (d : ContentDoc) : option string := route_of_path (doc_path d).

Fixpoint fm_get (key : string) (fm : list (string * string)) : option string :=
  match fm with
  | [] => None
  | (k, v) :: rest => if String.eqb k key then Some v else fm_get key rest
  end.

Definition nonempty (s : string) : bool :=
  match s with EmptyString => false | String _ _ => true end.

(** A front-matter field that is present with a non-empty value. *)
Definition has_field (key : string) (fm : list (string * string)) : bool :=
  match fm_get key fm with Some v => nonempty v | None => false end.

Definition valid_front_matter (fm : list (string * string)) : bool :=
  has_field "title" fm && has_field "description" fm.

(** *** The documents

    Eight documents carry their path in the source tree.  Five more are
    present with their text, and [README.md] (lines 23-37, the documentation
    structure) records their file names: [database.mdx], [payments.md],
    [error-handling.md], [seo.md] and [components.md]. *)

Definition authentication : ContentDoc := {|
  doc_path := "src/content/docs/guides/authentication.md";
  front_matter := [
    ("title", "User Authentication");
    ("description", "Set up user authentication with Supabase Auth.")]
|}.

Definition customer_support : ContentDoc := {|
  doc_path := "src/content/docs/guides/customer-support.md";
  front_matter := [
    ("title", "Customer Support");
    ("description", "Set up customer support with chat integration and help systems")]
|}.

Definition dark_mode : ContentDoc := {|
  doc_path := "src/content/docs/guides/dark-mode.md";
  front_matter := [
    ("title", "Dark Mode Implementation");
    ("description", "Complete guide to implementing dark mode with next-themes and shadcn/ui components.")]
|}.

Definition database : ContentDoc := {|
  doc_path := "src/content/docs/guides/database.mdx";
  front_matter := [
    ("title", "Database");
    ("description", "Set up and manage your PostgreSQL database with Supabase.")]
|}.

Definition deployment : ContentDoc := {|
  doc_path := "src/content/docs/guides/deployment.mdx";
  front_matter := [
    ("title", "Deployment");
    ("description", "Deploy your LaunchKit app to production.")]
|}.

Definition emails : ContentDoc := {|
  doc_path := "src/content/docs/guides/emails.mdx";
  front_matter := [
    ("title", "Email Integration");
    ("description", "Send transactional emails and manage email marketing with LaunchKit using Resend")]
|}.

Definition error_handling : ContentDoc := {|
  doc_path := "src/content/docs/guides/error-handling.md";
  front_matter := [
    ("title", "Error Handling");
    ("description", "Graceful error handling and user experience in LaunchKit")]
|}.

Definition getting_started : ContentDoc := {|
  doc_path := "src/content/docs/guides/getting-started.mdx";
  front_matter := [
    ("title", "Get Started");
    ("description", "Get your LaunchKit project up and running in minutes.")]
|}.

Definition payments : ContentDoc := {|
  doc_path := "src/content/docs/guides/payments.md";
  front_matter := [
    ("title", "Payments");
    ("description", "Set up Stripe payments and subscriptions in LaunchKit.")]
|}.

Definition seo : ContentDoc := {|
  doc_path := "src/content/docs/guides/seo.md";
  front_matter := [
    ("title", "SEO & Marketing");
    ("description", "Optimize your LaunchKit app for search engines and content marketing")]
|}.

Definition ship_in_5_minutes : ContentDoc := {|
  doc_path := "src/content/docs/guides/ship-in-5-minutes.md";
  front_matter := [
    ("title", "Ship in 5 Minutes");
    ("description", "Get your startup in front of customers in 5 minutes.")]
|}.

Definition api : ContentDoc := {|
  doc_path := "src/content/docs/reference/api.md";
  front_matter := [
    ("title", "API Reference");
    ("description", "API endpoints and utilities for LaunchKit.")]
|}.

Definition components : ContentDoc := {|
  doc_path := "src/content/docs/reference/components.md";
  front_matter := [
    ("title", "Components");
    ("description", "Pre-built components for your LaunchKit application.")]
|}.

Definition content_tree : list ContentDoc := [
  authentication; customer_support; dark_mode; database; deployment; emails;
  error_handling; getting_started; payments; seo; ship_in_5_minutes;
  api; components
].

(** One more Markdown document is in the source, an earlier revision of the
    authentication guide whose file name is not recorded anywhere; only its
    front-matter can be stated. *)
Definition authentication_earlier_front_matter : list (string * string) := [
  ("title", "User Authentication");
  ("description", "Set up user authentication with Supabase Auth.")
].

(** The routes the content tree serves. *)
Definition routes : list string := omap route content_tree.

(** Resolving a slug: the documents whose route is that slug. *)
Definition resolve (slug : string) : list ContentDoc :=
  filter (λ d, route d = Some slug) content_tree.

End Content.

Import Content.

(** ** The navigation tree as nested records *)

Module Records.

(** A navigation entry in a typed language: a group with a label and an
    ordered list of entries, or a leaf with a label and a slug. *)
Inductive NavEntry : Type :=
| Group (label : string) (items : list NavEntry)
| Leaf (label : string) (slug : string).

(** Induction that reaches the entries inside a group. *)
Definition NavEntry_deep_ind (P : NavEntry → Prop)
    (Hgroup : ∀ label items, Forall P items → P (Group label items))
    (Hleaf : ∀ label slug, P (Leaf label slug)) :
    ∀ e, P e :=
  fix go (e : NavEntry) : P e :=
    match e with
    | Group label items =>
        Hgroup label items
          ((fix go_items (l : list NavEntry) : Forall P l :=
              match l with
              | [] => Forall_nil_2 P
              | x :: l' => Forall_cons_2 P x l' (go x) (go_items l')
              end) items)
    | Leaf label slug => Hleaf label slug
    end.

(** From the declaration to records.  An entry is read when it is written
    the way the configuration writes entries, [label] first and then either
    [slug] or [items]; anything else is refused. *)
Fixpoint encode_entry (v : JsValue) : option NavEntry :=
  match v with
  | JObj [(k1, JStr l); (k2, JStr s)] =>
      if String.eqb k1 "label" && String.eqb k2 "slug"
      then Some (Leaf l s) else None
  | JObj [(k1, JStr l); (k2, JArr elems)] =>
      if String.eqb k1 "label" && String.eqb k2 "items"
      then Group l <$> mapM encode_entry elems else None
  | _ => None
  end.

Definition encode (v : JsValue) : option (list NavEntry) :=
  match v with
  | JArr elems => mapM encode_entry elems
  | _ => None
  end.

(** From records back to the declaration. *)
Fixpoint decode_entry (e : NavEntry) : JsValue :=
  match e with
  | Group l items =>
      JObj [("label", JStr l); ("items", JArr (map decode_entry items))]
  | Leaf l s => JObj [("label", JStr l); ("slug", JStr s)]
  end.

Definition decode (t : list NavEntry) : JsValue := JArr (map decode_entry t).

(** Labels and slugs of the leaves, left to right. *)
Fixpoint entry_leaves (e : NavEntry) : list (string * string) :=
  match e with
  | Group _ items => flat_map entry_leaves items
  | Leaf l s => [(l, s)]
  end.

(** The sidebar of [astro.config.mjs] written as records. *)
Definition sidebar_records : list NavEntry := [
  Group "Getting Started" [
    Leaf "Get Started" "guides/getting-started";
    Leaf "Ship in 5 Minutes" "guides/ship-in-5-minutes"];
  Group "Core Features" [
    Leaf "Authentication" "guides/authentication";
    Leaf "Database" "guides/database";
    Leaf "Payments" "guides/payments";
    Leaf "Email Integration" "guides/emails";
    Leaf "SEO & Marketing" "guides/seo";
    Leaf "Deployment" "guides/deployment"];
  Group "Support & Quality" [
    Leaf "Customer Support" "guides/customer-support";
    Leaf "Error Handling" "guides/error-handling"];
  Group "Reference" [
    Leaf "Components" "reference/components";
    Leaf "API Reference" "reference/api"]
].

End Records.

Import Records.

(** ** README.md: the development commands *)

Module Readme.















End Readme.

Import Readme.

(** ** Evaluating the configuration module *)

Module ConfigModule.



Section Evaluation.

(** [starlight] and [defineConfig] are imported from the framework
    (lines 2-3).  A call receives a value and may act on the world it runs
    in; [World] is whatever that world is. *)
Context {World : Type}.
Variable starlight : JsValue → World → JsValue * World.
Variable defineConfig : JsValue → World → JsValue * World.


End Evaluation.


End ConfigModule.

Import ConfigModule.


(** * The application code the guides document

    The guides and the API reference carry the TypeScript of the application
    they describe.  What follows embeds the functions written out there. *)

(** ** Values at run time *)

Module Rt.

(** A JavaScript value as the documented code handles it: what [req.json()]
    parses, what a handler reads from an object, what it builds. *)
Inductive Value : Type :=
| VUndefined
| VNull
| VBool (b : bool)
| VNum (f : PrimFloat.float)
| VStr (s : string)
| VArr (elems : list Value)
| VObj (props : list (string * Value)).

(** What [if (v)], [!v], [v || w] and [v && w] look at: [undefined],
    [null], [false], [0], [-0], [NaN] and the empty string are falsy. *)
Definition truthy (v : Value) : bool :=
  match v with
  | VUndefined | VNull => false
  | VBool b => b
  | VNum f => negb (PrimFloat.eqb f PrimFloat.zero || PrimFloat.is_nan f)
  | VStr s => match s with EmptyString => false | String _ _ => true end
  | VArr _ | VObj _ => true
  end.

Definition nullish (v : Value) : bool :=
  match v with VUndefined | VNull => true | _ => false end.

(** [a || b] and [a && b]. *)
Definition or_else (a b : Value) : Value := if truthy a then a else b.
Definition and_then (a b : Value) : Value := if truthy a then b else a.

(** The own property [key] of an object literal, the later one when it is
    written or spread twice. *)
Fixpoint own (key : string) (props : list (string * Value)) : option Value :=
  match props with
  | [] => None
  | (k, v) :: rest =>
      match own key rest with
      | Some w => Some w
      | None => if String.eqb k key then Some v else None
      end
  end.

(** [v?.key], for the keys the code reads (none of them a property of a
    prototype): [undefined] on a nullish [v], on a primitive, on an array and
    on an object without the key. *)
Definition opt_member (key : string) (v : Value) : Value :=
  match v with
  | VObj props => default VUndefined (own key props)
  | _ => VUndefined
  end.

(** [v === VStr s]. *)
Definition is_str (s : string) (v : Value) : bool :=
  match v with VStr t => String.eqb t s | _ => false end.

(** [...v] inside an object literal: the properties of an object, nothing
    for any other value the code spreads ([undefined], [false], [""]). *)
Definition spread (v : Value) : list (string * Value) :=
  match v with VObj props => props | _ => [] end.

(** A computation that returns or throws. *)
Inductive Result (A : Type) : Type :=
| Ok (a : A)
| Throw (e : Value).
Arguments Ok {A} a.
Arguments Throw {A} e.

Definition bind {A B : Type} (r : Result A) (k : A → Result B) : Result B :=
  match r with Ok a => k a | Throw e => Throw e end.

(** [try { body } catch (e) { handler }]. *)
Definition try_catch {A : Type} (body : Result A) (handler : Value → Result A)
    : Result A :=
  match body with Ok a => Ok a | Throw e => handler e end.

(** A [TypeError], as reading a property of [null] or [undefined] throws. *)
Definition type_error : Value :=
  VObj [("name", VStr "TypeError")].

(** [v.key]: throws on a nullish [v]. *)
Definition member (key : string) (v : Value) : Result Value :=
  if nullish v then Throw type_error else Ok (opt_member key v).

(** What a route handler answers with: [NextResponse.json(body, { status })]
    (status 200 when none is given) or [NextResponse.redirect(url)]. *)
Inductive Response : Type :=
| Json (status : nat) (body : Value)
| Redirect (url : string).

Definition status_of (r : Response) : option nat :=
  match r with Json s _ => Some s | Redirect _ => None end.

End Rt.

(** ** guides/dark-mode.md *)

Module Theme.




(** [Logo], lines 432-437: the theme in effect and the image shown. *)
Definition currentTheme (theme systemTheme : option string) : option string :=
  if bool_decide (theme = Some "system") then systemTheme else theme.

Definition logo_src (theme systemTheme : option string) : string :=
  if bool_decide (currentTheme theme systemTheme = Some "dark")
  then "/logo-dark.png" else "/logo-light.png".

(** [AnimatedBackground], lines 455-465: the gradient it animates to. *)
Definition background (theme : option string) : string :=
  if bool_decide (theme = Some "dark")
  then "linear-gradient(45deg, #1a1a1a, #2d2d2d)"
  else "linear-gradient(45deg, #ffffff, #f8f9fa)".

End Theme.

(** ** guides/seo.md *)

Module Seo.

Import Rt.
Import PrimFloat.

(** [config], lines 308-314 of the file that holds the guide. *)
Record Config : Type := {
  appName : string;
  appDescription : string;
  domainName : string
}.

Definition config : Config := {|
  appName := "LaunchKit";
  appDescription := "Ship your startup idea fast with Next.js + Supabase + TypeScript";
  domainName := "https://yourlaunchkit.com"
|}.

(** [s || d] for an optional string [s] and a string [d]. *)
Definition or_default (s : option string) (d : string) : string :=
  match s with
  | Some (String _ _ as t) => t
  | _ => d
  end.

(** The argument of [getSEOTags], as its type annotation gives it: three
    optional strings and an optional [Metadata] object. *)
Record SeoArgs : Type := {
  title : option string;
  description : option string;
  canonicalUrlRelative : option string;
  extraTags : option (list (string * Value))
}.

(** [getSEOTags], lines 322-368. *)
Definition getSEOTags (cfg : Config) (a : SeoArgs) : Value :=
  VObj ([
    ("title", VStr (or_default (title a) (appName cfg)));
    ("description", VStr (or_default (description a) (appDescription cfg)));
    ("keywords", VArr [VStr "startup"; VStr "saas"; VStr "nextjs";
                       VStr "supabase"; VStr "typescript"]);
    ("authors", VArr [VObj [("name", VStr (appName cfg))]]);
    ("creator", VStr (appName cfg));
    ("openGraph", VObj [
      ("title", VStr (or_default (title a) (appName cfg)));
      ("description", VStr (or_default (description a) (appDescription cfg)));
      ("url", VStr match canonicalUrlRelative a with
                   | Some (String _ _ as c) => domainName cfg +:+ c
                   | _ => domainName cfg
                   end);
      ("siteName", VStr (appName cfg));
      ("images", VArr [VObj [
        ("url", VStr (domainName cfg +:+ "/og-image.png"));
        ("width", VNum 1200%float);
        ("height", VNum 630%float)]]);
      ("locale", VStr "en_US");
      ("type", VStr "website")]);
    ("twitter", VObj [
      ("card", VStr "summary_large_image");
      ("title", VStr (or_default (title a) (appName cfg)));
      ("description", VStr (or_default (description a) (appDescription cfg)));
      ("images", VArr [VStr (domainName cfg +:+ "/og-image.png")])]);
    ("robots", VObj [("index", VBool true); ("follow", VBool true)])
  ] ++ match extraTags a with Some tags => tags | None => [] end)%list.

(** An empty string read as a missing one. *)
Definition blank_as_missing (s : option string) : option string :=
  match s with
  | Some (String _ _) => s
  | _ => None
  end.

(** The same arguments without their [extraTags]. *)
Definition without_extra_tags (a : SeoArgs) : SeoArgs := {|
  title := title a; description := description a;
  canonicalUrlRelative := canonicalUrlRelative a; extraTags := None
|}.

(** [metadata] of [app/pricing/page.tsx], lines 377-381. *)
Definition pricing_metadata : Value :=
  getSEOTags config {|
    title := Some "Pricing - LaunchKit";
    description := Some "Choose the perfect plan for your startup";
    canonicalUrlRelative := Some "/pricing";
    extraTags := None
  |}.

End Seo.

(** ** guides/database.mdx *)

Module Db.

Import Rt.

(** A row of [public.profiles], lines 48-58.  Text columns are nullable;
    times are readings of the database clock. *)
Record Profile : Type := {
  id : string;
  name : option string;
  email : option string;
  image : option string;
  customer_id : option string;
  price_id : option string;
  has_access : option bool;
  created_at : nat;
  updated_at : nat
}.

Abbreviation Table := (list Profile).

Definition ids (t : Table) : list string := id <$> t.

(** The columns an [update({...})] names.  [None] leaves a column alone (the
    key is absent or [undefined]); [Some None] writes [null]. *)
Record Patch : Type := {
  set_name : option (option string);
  set_email : option (option string);
  set_image : option (option string);
  set_customer_id : option (option string);
  set_price_id : option (option string);
  set_has_access : option (option bool)
}.

Definition apply_patch (p : Patch) (r : Profile) : Profile := {|
  id := id r;
  name := default (name r) (set_name p);
  email := default (email r) (set_email p);
  image := default (image r) (set_image p);
  customer_id := default (customer_id r) (set_customer_id p);
  price_id := default (price_id r) (set_price_id p);
  has_access := default (has_access r) (set_has_access p);
  created_at := created_at r;
  updated_at := updated_at r
|}.

(** [update_updated_at], lines 61-67: the trigger function run before each
    row is updated (lines 70-73). *)
Definition update_updated_at (now : nat) (new : Profile) : Profile := {|
  id := id new; name := name new; email := email new; image := image new;
  customer_id := customer_id new; price_id := price_id new;
  has_access := has_access new;
  created_at := created_at new;
  updated_at := now
|}.

(** [UPDATE public.profiles SET ... WHERE cond]. *)
Definition update_where (now : nat) (cond : Profile → bool) (p : Patch)
    (t : Table) : Table :=
  (λ r, if cond r then update_updated_at now (apply_patch p r) else r) <$> t.

(** A row of [auth.users], as far as the trigger reads it.  The metadata
    maps a key to the text [->>] gives for it. *)
Record AuthUser : Type := {
  user_id : string;
  user_email : option string;
  raw_user_meta_data : list (string * string)
}.

(** [raw_user_meta_data->>key]. *)
Fixpoint meta_text (key : string) (meta : list (string * string)) : option string :=
  match meta with
  | [] => None
  | (k, v) :: rest => if String.eqb k key then Some v else meta_text key rest
  end.

(** [COALESCE(a, b)]. *)
Definition coalesce (a b : option string) : option string :=
  match a with Some _ => a | None => b end.

(** The row [handle_new_user] inserts, lines 76-88, with the defaults of the
    table for the columns it does not name. *)
Definition new_profile (now : nat) (NEW : AuthUser) : Profile := {|
  id := user_id NEW;
  name := coalesce (meta_text "name" (raw_user_meta_data NEW))
                   (meta_text "full_name" (raw_user_meta_data NEW));
  email := user_email NEW;
  image := meta_text "avatar_url" (raw_user_meta_data NEW);
  customer_id := None;
  price_id := None;
  has_access := Some false;
  created_at := now;
  updated_at := now
|}.

(** [INSERT INTO public.profiles]: refused when the primary key is taken. *)
Definition insert_profile (r : Profile) (t : Table) : option Table :=
  if bool_decide (id r ∈ ids t) then None else Some (t ++ [r])%list.

Definition handle_new_user (now : nat) (NEW : AuthUser) (t : Table) : option Table :=
  insert_profile (new_profile now NEW) t.

(** The two tables together. *)
Record State : Type := {
  users : list AuthUser;
  profiles : Table
}.

(** A row enters [auth.users]; the trigger [on_auth_user_created], lines
    91-94, runs [handle_new_user] after the insert, and when either insert
    is refused nothing is kept. *)
Definition sign_up (now : nat) (NEW : AuthUser) (s : State) : option State :=
  if bool_decide (user_id NEW ∈ user_id <$> users s) then None
  else
    t ← handle_new_user now NEW (profiles s);
    Some {| users := (users s ++ [NEW])%list; profiles := t |}.

(** Every user has one profile and every profile its user: the two tables
    list the same ids in the same order, none of them twice. *)
Definition consistent (s : State) : Prop :=
  ids (profiles s) = (user_id <$> users s) ∧ NoDup (user_id <$> users s).


(** *** Row level security, lines 121-147

    [auth.uid()] is the id of the signed-in user, [None] for a visitor.  The
    functions of the guide reach the table through [createClient()], with
    the session of their caller, so the policies bind them. *)
Definition own_row (uid : option string) (r : Profile) : bool :=
  bool_decide (uid = Some (id r)).

(** "Users can view own profile": the rows a [SELECT] sees. *)
Definition rls_select (uid : option string) (t : Table) : Table :=
  filter (λ r, own_row uid r = true) t.

(** "Users can update own profile": an [UPDATE] reaches the caller's rows
    only. *)
Definition rls_update (uid : option string) (now : nat) (cond : Profile → bool)
    (p : Patch) (t : Table) : Table :=
  update_where now (λ r, own_row uid r && cond r) p t.

(** [.single()]: the row when there is exactly one, an error otherwise. *)
Definition single (rows : list Profile) : option Profile :=
  match rows with [r] => Some r | _ => None end.

(** [getProfile], lines 207-222: the row, or [null] after an error. *)
Definition getProfile (uid : option string) (userId : string) (t : Table)
    : option Profile :=
  single (filter (λ r, id r = userId) (rls_select uid t)).

Definition no_change : Patch := {|
  set_name := None; set_email := None; set_image := None;
  set_customer_id := None; set_price_id := None; set_has_access := None
|}.

(** [updateUserAccess], lines 294-317.  [priceId] is optional: left out, the
    column is not written.  The row comes back, or the error is thrown; the
    statement that found no single row changes nothing. *)
Definition updateUserAccess (uid : option string) (now : nat) (userId : string)
    (hasAccess : bool) (priceId : option string) (t : Table)
    : option Profile * Table :=
  let patch := {|
    set_name := None; set_email := None; set_image := None;
    set_customer_id := None;
    set_price_id := Some <$> priceId;
    set_has_access := Some (Some hasAccess)
  |} in
  let t' := rls_update uid now (λ r, bool_decide (id r = userId)) patch t in
  match single (filter (λ r, id r = userId) (rls_select uid t')) with
  | Some r => (Some r, t')
  | None => (None, t)
  end.

(** [removeUserAccess], lines 339-356. *)
Definition removeUserAccess (uid : option string) (now : nat)
    (stripeCustomerId : string) (t : Table) : Table :=
  rls_update uid now (λ r, bool_decide (customer_id r = Some stripeCustomerId))
    {| set_name := None; set_email := None; set_image := None;
       set_customer_id := None;
       set_price_id := Some None;
       set_has_access := Some (Some false) |}
    t.

End Db.

(** ** reference/api.md *)

Module Api.

Import Rt.

(** *** [/api/lead], lines 73-93 *)

(** [POST]: [parsed] is what [await req.json()] gives, a value or the
    exception of a body that is not JSON.  The [try] block only builds the
    answer. *)
Definition lead_POST (parsed : Result Value) : Result Response :=
  bind parsed (λ body,
  bind (member "email" body) (λ email,
  if negb (truthy email) then
    Ok (Json 400 (VObj [("error", VStr "Email is required")]))
  else
    try_catch (Ok (Json 200 (VObj [])))
      (λ e, bind (member "message" e) (λ m,
            Ok (Json 500 (VObj [("error", m)])))))).

(** *** [libs/stripe.ts], lines 413-477 and 499-515 *)

(** The destructured argument of [createCheckout]. *)
Record CreateCheckoutParams : Type := {
  user : Value;
  mode : Value;
  clientReferenceId : Value;
  successUrl : Value;
  cancelUrl : Value;
  priceId : Value;
  couponId : Value
}.

(** [extraParams] after lines 438-449, in the order of the assignments. *)
Definition extraParams (a : CreateCheckoutParams) : list (string * Value) :=
  if truthy (opt_member "customerId" (user a)) then
    [("customer", opt_member "customerId" (user a))]
  else
    ((if is_str "payment" (mode a) then
        [("customer_creation", VStr "always");
         ("payment_intent_data", VObj [("setup_future_usage", VStr "on_session")])]
      else []) ++
     (if truthy (opt_member "email" (user a)) then
        [("customer_email", opt_member "email" (user a))]
      else []) ++
     [("tax_id_collection", VObj [("enabled", VBool true)])])%list.

(** The argument of [stripe.checkout.sessions.create], lines 451-469. *)
Definition session_request (a : CreateCheckoutParams) : Value :=
  VObj ([
    ("mode", mode a);
    ("allow_promotion_codes", VBool true);
    ("client_reference_id", clientReferenceId a);
    ("line_items", VArr [VObj [("price", priceId a); ("quantity", VNum PrimFloat.one)]]);
    ("discounts", if truthy (couponId a)
                  then VArr [VObj [("coupon", couponId a)]]
                  else VArr []);
    ("success_url", successUrl a);
    ("cancel_url", cancelUrl a)
  ] ++ extraParams a)%list.

(** [createCheckout]: [create] stands for making the Stripe client and
    calling [checkout.sessions.create] on it, both inside the [try]. *)
Definition createCheckout (create : Value → Result Value)
    (a : CreateCheckoutParams) : Value :=
  match bind (create (session_request a)) (member "url") with
  | Ok url => url
  | Throw _ => VNull
  end.

(** [findCheckoutSession]: [retrieve] stands for making the client and
    calling [checkout.sessions.retrieve] with [expand: ['line_items']]. *)
Definition findCheckoutSession {Session : Type}
    (retrieve : string → Result Session) (sessionId : string) : option Session :=
  match retrieve sessionId with
  | Ok session => Some session
  | Throw _ => None
  end.

(** *** [/api/stripe/create-checkout], lines 131-186 *)

(** What the handler reaches outside itself. *)
Record Services : Type := {
  (** [createClient()] and [supabase.auth.getUser()]: [data.user] *)
  getUser : Result Value;
  (** [.from('profiles').select('*').eq('id', id).single()]: [data] *)
  profile_of : Value → Result Value;
  (** the Stripe client and [checkout.sessions.create] *)
  sessions_create : Value → Result Value
}.

Definition bad_request (message : string) : Response :=
  Json 400 (VObj [("error", VStr message)]).

Definition mode_required : string :=
  "Mode is required (either " +:+ String (Ascii.ascii_of_nat 34) "payment" +:+
  String (Ascii.ascii_of_nat 34) " for one-time payments or " +:+
  String (Ascii.ascii_of_nat 34) "subscription" +:+
  String (Ascii.ascii_of_nat 34) " for recurring subscription)".

(** The argument the handler gives [createCheckout], lines 170-180, from the
    request body, the signed-in user and the profile row. *)
Definition checkout_params (body user data : Value) : CreateCheckoutParams := {|
  priceId := opt_member "priceId" body;
  mode := opt_member "mode" body;
  successUrl := opt_member "successUrl" body;
  cancelUrl := opt_member "cancelUrl" body;
  couponId := VUndefined;
  clientReferenceId := opt_member "id" user;
  user := VObj [("email", opt_member "email" data);
                ("customerId", opt_member "customer_id" data)]
|}.

(** The body of the [try] block, lines 155-181. *)
Definition checkout_attempt (srv : Services) (body : Value) : Result Response :=
  bind (getUser srv) (λ user,
  bind (profile_of srv (opt_member "id" user)) (λ data,
  let stripeSessionURL :=
    createCheckout (sessions_create srv) (checkout_params body user data) in
  Ok (Json 200 (VObj [("url", stripeSessionURL)])))).

(** The four fields the handler asks for, all truthy. *)
Definition complete (body : Value) : bool :=
  truthy (opt_member "priceId" body) && truthy (opt_member "successUrl" body)
  && truthy (opt_member "cancelUrl" body) && truthy (opt_member "mode" body).

Definition checkout_POST (srv : Services) (parsed : Result Value)
    : Result Response :=
  bind parsed (λ body,
  bind (member "priceId" body) (λ priceId,
  if negb (truthy priceId) then Ok (bad_request "Price ID is required")
  else if negb (truthy (opt_member "successUrl" body))
          || negb (truthy (opt_member "cancelUrl" body))
  then Ok (bad_request "Success and cancel URLs are required")
  else if negb (truthy (opt_member "mode" body))
  then Ok (bad_request mode_required)
  else
    try_catch (checkout_attempt srv body)
      (λ e, Ok (Json 500 (VObj [("error", opt_member "message" e)]))))).

(** The request of the reference's own example, lines 107-112, and
    services for it: a signed-in user with a profile, and a Stripe that is
    down. *)
Definition example_body : Value :=
  VObj [("priceId", VStr "price_123");
        ("mode", VStr "subscription");
        ("successUrl", VStr "https://yourdomain.com/success");
        ("cancelUrl", VStr "https://yourdomain.com/cancel")].

Definition stripe_down : Services := {|
  getUser := Ok (VObj [("id", VStr "user-1")]);
  profile_of := λ _, Ok (VObj [("email", VStr "user@example.com");
                               ("customer_id", VNull)]);
  sessions_create := λ _, Throw (VObj [("message", VStr "connection refused")])
|}.

(** *** [libs/resend.ts], lines 363-391 *)

(** The argument of [resend.emails.send], lines 376-383. *)
Definition email_request (fromAdmin : string) (to subject text html replyTo : Value)
    : Value :=
  VObj ([("from", VStr fromAdmin); ("to", to); ("subject", subject);
         ("text", text); ("html", html)]
        ++ spread (and_then replyTo (VObj [("replyTo", replyTo)])))%list.

(** [sendEmail]: [send] gives the [data] and [error] of the answer. *)
Definition sendEmail (fromAdmin : string) (send : Value → Value * Value)
    (to subject text html replyTo : Value) : Result Value :=
  let '(data, error) := send (email_request fromAdmin to subject text html replyTo) in
  if truthy error then Throw error else Ok data.

(** *** [libs/supabase/server.ts], lines 326-351 *)

Record Cookie : Type := {
  cookie_name : string;
  cookie_value : string;
  cookie_options : Value
}.

Section Cookies.

(** The cookie store of the request, and its [set], which throws when
    called from a Server Component and then sets nothing. *)
Context {Store : Type}.
Variable set : Cookie → Store → Result Store.

(** [cookiesToSet.forEach(...)], lines 338-340: the store when the loop
    ends, by reaching the end of the list or by an exception. *)
Fixpoint forEach_set (cookiesToSet : list Cookie) (store : Store)
    : Result unit * Store :=
  match cookiesToSet with
  | [] => (Ok (), store)
  | c :: rest =>
      match set c store with
      | Ok store' => forEach_set rest store'
      | Throw e => (Throw e, store)
      end
  end.

(** [setAll], lines 337-347: the [catch] is empty. *)
Definition setAll (cookiesToSet : list Cookie) (store : Store)
    : Result unit * Store :=
  match forEach_set cookiesToSet store with
  | (Ok u, store') => (Ok u, store')
  | (Throw _, store') => (Ok (), store')
  end.

(** Setting every cookie of a list, when every [set] succeeds. *)
Fixpoint set_each (cookies : list Cookie) (store : Store) : option Store :=
  match cookies with
  | [] => Some store
  | c :: rest =>
      match set c store with
      | Ok store' => set_each rest store'
      | Throw _ => None
      end
  end.

End Cookies.

(** A cookie store that takes a cookie unless its name is empty. *)
Definition set_named (c : Cookie) (store : list Cookie) : Result (list Cookie) :=
  match cookie_name c with
  | EmptyString => Throw (VObj [("message", VStr "invalid cookie name")])
  | String _ _ => Ok (store ++ [c])%list
  end.

(** *** [/api/webhook/stripe], lines 223-300 *)

(** What the handler reads of a Checkout Session retrieved with its line
    items: the customer id, [null] when there is none, and for each line
    item its price, [null] when there is none. *)
Record Price : Type := { price_ident : string }.
Record LineItem : Type := { price : option Price }.
Record Session : Type := {
  customer : option string;
  line_items : option (list LineItem)
}.

(** What it reads of [event.data.object]: [id] and [client_reference_id] of
    a Checkout Session, [customer] of a Subscription or an Invoice (an id). *)
Record StripeObject : Type := {
  object_id : string;
  client_reference_id : option string;
  object_customer : string
}.

Record Event : Type := {
  type : string;
  object : StripeObject
}.

(** [session?.line_items?.data[0]?.price.id], line 253: [undefined] without
    a session, without line items or with none; a [TypeError] when the
    first line item has no price. *)
Definition first_price_id (session : option Session) : Result (option string) :=
  match session with
  | None => Ok None
  | Some s =>
      match line_items s with
      | None | Some [] => Ok None
      | Some (item :: _) =>
          match price item with
          | Some p => Ok (Some (price_ident p))
          | None => Throw type_error
          end
      end
  end.

(** The [switch] inside the [try], lines 245-294, on the table
    [public.profiles] reached with the service role, which row level
    security does not bind.  The database carries out each update it is
    sent; an exception, which can only come before the update, leaves the
    table as it is. *)
Definition handle_event (retrieve : string → Result Session) (now : nat)
    (event : Event) (db : Db.Table) : Result Db.Table :=
  if String.eqb (type event) "checkout.session.completed" then
    let session := findCheckoutSession retrieve (object_id (object event)) in
    bind (first_price_id session) (λ priceId,
    Ok (Db.update_where now
          (λ r, bool_decide (Some (Db.id r) = client_reference_id (object event)))
          {| Db.set_name := None; Db.set_email := None; Db.set_image := None;
             Db.set_customer_id := customer <$> session;
             Db.set_price_id := Some <$> priceId;
             Db.set_has_access := Some (Some true) |}
          db))
  else if String.eqb (type event) "customer.subscription.deleted" then
    Ok (Db.update_where now
          (λ r, bool_decide (Db.customer_id r = Some (object_customer (object event))))
          {| Db.set_name := None; Db.set_email := None; Db.set_image := None;
             Db.set_customer_id := None; Db.set_price_id := None;
             Db.set_has_access := Some (Some false) |}
          db)
  else if String.eqb (type event) "invoice.paid" then
    Ok (Db.update_where now
          (λ r, bool_decide (Db.customer_id r = Some (object_customer (object event))))
          {| Db.set_name := None; Db.set_email := None; Db.set_image := None;
             Db.set_customer_id := None; Db.set_price_id := None;
             Db.set_has_access := Some (Some true) |}
          db)
  else Ok db.

(** The event types the [switch] has a case for. *)
Definition handled_types : list string :=
  ["checkout.session.completed"; "customer.subscription.deleted"; "invoice.paid"].

(** [POST]: [constructEvent] is [stripe.webhooks.constructEvent] with the
    webhook secret, [signature] the [stripe-signature] header. *)
Definition webhook_POST
    (constructEvent : string → option string → Result Event)
    (retrieve : string → Result Session) (now : nat)
    (body : string) (signature : option string) (db : Db.Table)
    : Result Response * Db.Table :=
  match constructEvent body signature with
  | Throw err =>
      (bind (member "message" err) (λ m, Ok (Json 400 (VObj [("error", m)]))), db)
  | Ok event =>
      (Ok (Json 200 (VObj [])),
       match handle_event retrieve now event db with
       | Ok db' => db'
       | Throw _ => db
       end)
  end.

End Api.
(** * Properties *)

(** ** Paths and routes *)

Section Paths.

Lemma append_empty (s : string) : EmptyString +:+ s = s.
Proof. reflexivity. Qed.

Lemma append_String c (s t : string) : String c s +:+ t = String c (s +:+ t).
Proof. reflexivity. Qed.

Lemma strip_prefix_spec p s r :
  strip_prefix p s = Some r ↔ s = p +:+ r.
Proof.
  revert s. induction p as [|a p IH]; intros s.
  - rewrite append_empty. simpl. split; congruence.
  - rewrite append_String. destruct s as [|b s]; simpl; [split; discriminate|].
    destruct (Ascii.eqb_spec a b) as [->|Hne].
    + rewrite IH. split; [intros ->; reflexivity|intros [= ->]; reflexivity].
    + split; [discriminate|intros [= Hab _]; congruence].
Qed.

Lemma split_ext_whole s stem :
  split_ext s = (stem, None) → stem = s ∧ dotless s = true.
Proof.
  revert stem. induction s as [|c s IH]; intros stem; simpl.
  - intros [= <-]. done.
  - destruct (split_ext s) as [st [e|]]; [discriminate|].
    destruct (IH st eq_refl) as [-> Hs].
    destruct (Ascii.eqb c _); [discriminate|].
    intros [= <-]. done.
Qed.

Lemma split_ext_cut s stem e :
  split_ext s = (stem, Some e) → s = stem +:+ dot +:+ e ∧ dotless e = true.
Proof.
  revert stem. induction s as [|c s IH]; intros stem; simpl; [discriminate|].
  destruct (split_ext s) as [st [e'|]] eqn:Hs.
  - intros [= <- <-]. destruct (IH st eq_refl) as [-> He].
    by rewrite append_String.
  - apply split_ext_whole in Hs as [-> Hs].
    destruct (Ascii.eqb_spec c (Ascii.ascii_of_nat 46)) as [->|]; [|discriminate].
    intros [= <- <-]. done.
Qed.

Lemma split_ext_dotless s :
  dotless s = true → split_ext s = (s, None).
Proof.
  induction s as [|c s IH]; simpl; [done|].
  intros [Hc Hs]%andb_prop. rewrite (IH Hs).
  by destruct (Ascii.eqb c _).
Qed.

Lemma split_ext_app stem e :
  dotless e = true → split_ext (stem +:+ dot +:+ e) = (stem, Some e).
Proof.
  intros He. induction stem as [|c stem IH].
  - rewrite append_empty. unfold dot. rewrite append_String, append_empty.
    simpl. by rewrite (split_ext_dotless e He).
  - rewrite append_String. simpl. by rewrite IH.
Qed.

Lemma is_markdown_ext_spec e :
  is_markdown_ext e = true ↔ e = "md" ∨ e = "mdx".
Proof.
  unfold is_markdown_ext. rewrite orb_true_iff, !String.eqb_eq. done.
Qed.

(** The route rule, read both ways: a path has route [r] exactly when it is
    [r] under the content root with a Markdown or MDX extension. *)
Lemma route_of_path_spec path r :
  route_of_path path = Some r ↔
  ∃ e, (e = "md" ∨ e = "mdx") ∧ path = content_root +:+ r +:+ dot +:+ e.
Proof.
  unfold route_of_path. split.
  - destruct (strip_prefix content_root path) as [rel|] eqn:Hrel; [|discriminate].
    apply strip_prefix_spec in Hrel as ->. simpl.
    destruct (split_ext rel) as [stem [e|]] eqn:Hcut; [|discriminate].
    apply split_ext_cut in Hcut as [-> _].
    destruct (is_markdown_ext e) eqn:He; [|discriminate].
    intros [= <-]. exists e. by apply is_markdown_ext_spec in He.
  - intros (e & He & ->).
    assert (strip_prefix content_root (content_root +:+ r +:+ dot +:+ e)
            = Some (r +:+ dot +:+ e)) as -> by by apply strip_prefix_spec.
    simpl. rewrite split_ext_app by (by destruct He as [-> | ->]).
    by apply is_markdown_ext_spec in He as ->.
Qed.

(** Two files with the same route differ at most in their extension. *)
Lemma route_of_path_inj p q r :
  route_of_path p = Some r → route_of_path q = Some r →
  ∃ e e', p = content_root +:+ r +:+ dot +:+ e ∧ q = content_root +:+ r +:+ dot +:+ e'.
Proof.
  intros (e & _ & ->)%route_of_path_spec (e' & _ & ->)%route_of_path_spec.
  by exists e, e'.
Qed.

End Paths.

(** ** Shapes of entries *)

Section Shapes.

Lemma has_array_has_key key v : has_array key v = true → has_key key v = true.
Proof.
  unfold has_array, has_key. by destruct (get key v) as [[]|].
Qed.

Lemma has_string_has_key key v : has_string key v = true → has_key key v = true.
Proof.
  unfold has_string, has_key. by destruct (get key v) as [[]|].
Qed.

(** No value is both a group and a leaf. *)
Lemma group_leaf_exclusive v : is_group v = true → is_leaf v = false.
Proof.
  unfold is_group, is_leaf.
  intros [[_ Hitems]%andb_prop _]%andb_prop.
  rewrite (has_array_has_key _ _ Hitems). simpl. apply andb_false_r.
Qed.

Lemma group_has_no_slug v : is_group v = true → has_key "slug" v = false.
Proof.
  unfold is_group. intros [_ H]%andb_prop. by apply negb_true_iff in H.
Qed.

Lemma leaf_has_no_items v : is_leaf v = true → has_key "items" v = false.
Proof.
  unfold is_leaf. intros [_ H]%andb_prop. by apply negb_true_iff in H.
Qed.

Lemma leaf_children v : is_leaf v = true → children v = [].
Proof.
  intros H%leaf_has_no_items. revert H.
  unfold children, get_array, has_key. by destruct (get "items" v).
Qed.

(** What [decode_entry] writes has the shape its constructor names. *)
Lemma decode_entry_shape e :
  match e with
  | Group _ _ => is_group (decode_entry e) = true
  | Leaf _ _ => is_leaf (decode_entry e) = true
  end.
Proof. by destruct e. Qed.

End Shapes.

(** ** Declaration and records *)

Section RoundTrip.

Lemma mapM_encode_decode (l : list NavEntry) :
  Forall (λ e, encode_entry (decode_entry e) = Some e) l →
  mapM encode_entry (map decode_entry l) = Some l.
Proof.
  induction 1 as [|e l He _ IH]; [done|].
  simpl. rewrite He. simpl. by rewrite IH.
Qed.

(** Writing an entry and reading it again gives the entry. *)
Lemma encode_decode_entry e : encode_entry (decode_entry e) = Some e.
Proof.
  induction e as [l items IH|l s] using NavEntry_deep_ind; [|done].
  simpl. by rewrite (mapM_encode_decode items IH).
Qed.

Lemma encode_decode t : encode (decode t) = Some t.
Proof.
  apply mapM_encode_decode, Forall_forall. intros e _. apply encode_decode_entry.
Qed.

(** What [encode_entry] accepts, and what it makes of it. *)
Lemma encode_entry_inv v e :
  encode_entry v = Some e →
  (∃ l s, v = JObj [("label", JStr l); ("slug", JStr s)] ∧ e = Leaf l s) ∨
  (∃ l elems items,
      v = JObj [("label", JStr l); ("items", JArr elems)] ∧
      mapM encode_entry elems = Some items ∧ e = Group l items).
Proof.
  destruct v as [|?|[|[k1 [l| |]] [|[k2 [s|elems|]] [|]]]]; try done; simpl.
  - destruct (String.eqb_spec k1 "label") as [->|]; [|done].
    destruct (String.eqb_spec k2 "slug") as [->|]; [|done].
    intros [= <-]. left. by exists l, s.
  - destruct (String.eqb_spec k1 "label") as [->|]; [|done].
    destruct (String.eqb_spec k2 "items") as [->|]; [|done]. simpl.
    destruct (mapM encode_entry elems) as [items|] eqn:Hitems; [|done].
    intros [= <-]. right. by exists l, elems, items.
Qed.

(** Reading an entry and writing it again gives the very declaration. *)
Lemma decode_encode_entry e v : encode_entry v = Some e → decode_entry e = v.
Proof.
  revert v. induction e as [l items IH|l s] using NavEntry_deep_ind; intros v Hv.
  - apply encode_entry_inv in Hv as [(? & ? & _ & [=])|(l' & elems & items' & -> & Hitems & [= <- <-])].
    simpl. do 5 f_equal.
    apply mapM_Some_1 in Hitems. clear l.
    induction Hitems as [|x e elems items Hx _ IHitems]; [done|].
    apply Forall_cons_1 in IH as [He IH].
    simpl. by rewrite (He x Hx), (IHitems IH).
  - by apply encode_entry_inv in Hv as [(? & ? & -> & [= <- <-])|(? & ? & ? & _ & _ & [=])].
Qed.

Lemma decode_encode v t : encode v = Some t → decode t = v.
Proof.
  destruct v as [|elems|]; try done. simpl. intros Ht%mapM_Some_1.
  unfold decode. f_equal.
  induction Ht as [|x e elems t Hx _ IH]; [done|].
  simpl. by rewrite (decode_encode_entry e x Hx), IH.
Qed.

Lemma leaf_pairs_decode_entry e :
  omap label_slug (filter (λ n, is_leaf n = true) (nodes (decode_entry e)))
  = entry_leaves e.
Proof.
  induction e as [l items IH|l s] using NavEntry_deep_ind; [|done].
  cbn [decode_entry nodes flat_map fst snd entry_leaves].
  change (String.eqb "label" "items") with false.
  change (String.eqb "items" "items") with true.
  cbn [app]. rewrite app_nil_r.
  rewrite filter_cons_False by done.
  induction IH as [|e items He _ IHitems]; [done|].
  cbn [map flat_map]. rewrite filter_app, omap_app. by rewrite He, IHitems.
Qed.

(** The leaves of the records are the leaves of the declaration they
    decode to, in the same order. *)
Lemma leaf_pairs_decode t : leaf_pairs (decode t) = flat_map entry_leaves t.
Proof.
  unfold leaf_pairs, leaves, decode. cbn [nodes].
  induction t as [|e t IH]; [done|].
  cbn [map flat_map]. rewrite filter_app, omap_app.
  by rewrite leaf_pairs_decode_entry, IH.
Qed.

End RoundTrip.

(** ** Front-matter *)

Section FrontMatter.

Lemma nonempty_spec s : nonempty s = true ↔ s ≠ EmptyString.
Proof. by destruct s. Qed.

Lemma has_field_spec key fm :
  has_field key fm = true ↔ ∃ v, fm_get key fm = Some v ∧ v ≠ EmptyString.
Proof.
  unfold has_field. destruct (fm_get key fm) as [v|].
  - rewrite nonempty_spec. split; [by exists v|by intros (? & [= <-] & ?)].
  - split; [done|by intros (? & ? & _)].
Qed.

Lemma valid_front_matter_spec fm :
  valid_front_matter fm = true ↔
  (∃ t, fm_get "title" fm = Some t ∧ t ≠ EmptyString) ∧
  (∃ d, fm_get "description" fm = Some d ∧ d ≠ EmptyString).
Proof.
  unfold valid_front_matter. by rewrite andb_true_iff, !has_field_spec.
Qed.

End FrontMatter.

(** ** The site *)

(** Closes a decidable statement about the literal data by evaluation. *)
Ltac by_evaluation := apply (bool_decide_unpack _); vm_compute; exact I.

(** C1.  The sidebar declares twelve slugs, and for each of them the content
    tree holds a document whose route is that slug, exactly one. *)
Theorem sidebar_slugs_resolve :
  leaf_slugs sidebar =
    ["guides/getting-started"; "guides/ship-in-5-minutes";
     "guides/authentication"; "guides/database"; "guides/payments";
     "guides/emails"; "guides/seo"; "guides/deployment";
     "guides/customer-support"; "guides/error-handling";
     "reference/components"; "reference/api"] ∧
  Forall (λ slug, Exists (λ d, route d = Some slug) content_tree)
         (leaf_slugs sidebar) ∧
  Forall (λ slug, length (resolve slug) = 1) (leaf_slugs sidebar).
Proof.
  split; [reflexivity|]. split; [|by_evaluation].
  apply Forall_forall. intros slug Hslug.
  (* a slug resolves as soon as it is one of the routes served *)
  assert (slug ∈ routes) as Hroute.
  { revert slug Hslug. apply Forall_forall. by_evaluation. }
  apply list_elem_of_omap in Hroute as (d & Hd & Hr).
  apply Exists_exists. by exists d.
Qed.

(** C2.  Every document of the content tree has a [title] and a
    [description] in its front-matter, both non-empty strings; so has the
    one document whose place in the tree is not recorded. *)
Theorem front_matter_title_description :
  Forall (λ d,
      (∃ t, fm_get "title" (front_matter d) = Some t ∧ t ≠ EmptyString) ∧
      (∃ s, fm_get "description" (front_matter d) = Some s ∧ s ≠ EmptyString))
    content_tree ∧
  ((∃ t, fm_get "title" authentication_earlier_front_matter = Some t ∧ t ≠ EmptyString) ∧
   (∃ s, fm_get "description" authentication_earlier_front_matter = Some s ∧ s ≠ EmptyString)).
Proof.
  split.
  - eapply Forall_impl; [|intros d Hd; apply valid_front_matter_spec, Hd].
    by_evaluation.
  - by apply valid_front_matter_spec.
Qed.

(** Facts about the sidebar literal that the claims below share. *)
Lemma sidebar_nodes_shaped :
  Forall (λ n, is_group n || is_leaf n = true) (nodes sidebar).
Proof. by_evaluation. Qed.

Lemma sidebar_children_closed :
  Forall (λ n, Forall (λ c, c ∈ nodes sidebar) (children n)) (nodes sidebar).
Proof.
  unfold sidebar. cbn [nodes flat_map fst snd String.eqb Ascii.eqb Bool.eqb app].
  repeat (apply Forall_cons; split;
          [cbv [children get_array get get_prop String.eqb Ascii.eqb Bool.eqb default];
           repeat (apply Forall_cons; split; [repeat constructor|]); apply Forall_nil_2|]).
  apply Forall_nil_2.
Qed.

(** C3.  Every node of the sidebar is either a group (string [label], array
    [items], no [slug]) or a leaf (string [label], string [slug], no
    [items]), never both and never neither; no node has both an [items] and
    a [slug] key; and where a node has children they are the elements of an
    array, in the order written. *)
Theorem sidebar_node_shapes :
  Forall (λ n,
      xorb (is_group n) (is_leaf n) = true ∧
      has_key "items" n && has_key "slug" n = false ∧
      has_string "label" n = true ∧
      has_key "items" n = has_array "items" n ∧
      Forall (λ c, c ∈ nodes sidebar) (children n))
    (nodes sidebar).
Proof.
  pose proof sidebar_nodes_shaped as Hshaped.
  pose proof sidebar_children_closed as Hclosed.
  rewrite Forall_forall in Hshaped, Hclosed.
  apply Forall_forall. intros n Hn.
  specialize (Hshaped n Hn) as Hshape. specialize (Hclosed n Hn) as Hchildren.
  split_and!; [| | | |done].
  - destruct (is_group n) eqn:Hg; [by rewrite (group_leaf_exclusive n Hg)|done].
  - apply orb_prop in Hshape as [Hg|Hl].
    + by rewrite (group_has_no_slug n Hg), andb_false_r.
    + by rewrite (leaf_has_no_items n Hl).
  - apply orb_prop in Hshape as [Hg|Hl].
    + unfold is_group in Hg. by apply andb_prop in Hg as [[? _]%andb_prop _].
    + unfold is_leaf in Hl. by apply andb_prop in Hl as [[? _]%andb_prop _].
  - apply orb_prop in Hshape as [Hg|Hl].
    + unfold is_group in Hg. apply andb_prop in Hg as [[_ Ha]%andb_prop _].
      by rewrite Ha, (has_array_has_key _ _ Ha).
    + rewrite (leaf_has_no_items n Hl). unfold has_array, has_key in *.
      revert Hl. unfold is_leaf, has_key. by destruct (get "items" n) as [[]|]; rewrite ?andb_false_r.
Qed.

(** C4.  Every document of the content tree is a [.md] or [.mdx] file under
    the content root whose front-matter has the keys [title] and
    [description]; its route is its path relative to the content root with
    the extension dropped, and no two documents share a route. *)
Theorem content_documents_routed :
  Forall (λ d, ∃ stem e,
      (e = "md" ∨ e = "mdx") ∧
      doc_path d = content_root +:+ stem +:+ dot +:+ e ∧
      route d = Some stem ∧
      is_Some (fm_get "title" (front_matter d)) ∧
      is_Some (fm_get "description" (front_matter d)))
    content_tree ∧
  NoDup routes ∧ length routes = length content_tree.
Proof.
  split; [|split; [by_evaluation|reflexivity]].
  assert (Forall (λ d, is_Some (route d) ∧
                       is_Some (fm_get "title" (front_matter d)) ∧
                       is_Some (fm_get "description" (front_matter d)))
                 content_tree) as Hall by by_evaluation.
  eapply Forall_impl; [exact Hall|]. clear Hall.
  intros d ([stem Hstem] & Htitle & Hdescription).
  pose proof Hstem as (e & He & Hpath)%route_of_path_spec.
  by exists stem, e.
Qed.

(** C5.  The sidebar declaration encodes to nested lists of records and
    decodes back to itself, the records are the only ones that decode to
    it, their leaves carry the declaration's labels and slugs in its order,
    and encoding undoes decoding for every tree of records. *)
Theorem sidebar_roundtrip :
  (∃ t, encode sidebar = Some t ∧ decode t = sidebar ∧
        flat_map entry_leaves t = leaf_pairs sidebar ∧
        ∀ t', decode t' = sidebar ↔ t' = t) ∧
  (∀ t, encode (decode t) = Some t).
Proof.
  split; [|exact encode_decode].
  assert (encode sidebar = Some sidebar_records) as Henc by reflexivity.
  pose proof (decode_encode _ _ Henc) as Hdec.
  exists sidebar_records. split_and!; [done..| |].
  - by rewrite <-Hdec, leaf_pairs_decode.
  - intros t'. split; [|by intros ->].
    intros Ht'. pose proof (encode_decode t') as Ht.
    rewrite Ht', Henc in Ht. by injection Ht.
Qed.





(** C8.  The sidebar is two levels deep: its four top-level entries are
    groups, none of them a leaf, each with at least one child; every child
    is a leaf, none of them a group, and has no children of its own. *)
Theorem sidebar_two_levels :
  ∃ tops, sidebar = JArr tops ∧ length tops = 4 ∧
    Forall (λ g,
        is_group g = true ∧ is_leaf g = false ∧ 0 < length (children g) ∧
        Forall (λ c, is_leaf c = true ∧ is_group c = false ∧ children c = [])
               (children g))
      tops.
Proof.
  eexists. split; [reflexivity|]. split; [reflexivity|].
  eapply Forall_impl.
  - instantiate (1 := λ g, is_group g = true ∧ 0 < length (children g) ∧
                           Forall (λ c, is_leaf c = true) (children g)).
    by_evaluation.
  - intros g (Hg & Hlen & Hleaves). split_and!; [done| |done|].
    + by apply group_leaf_exclusive.
    + eapply Forall_impl; [exact Hleaves|]. intros c Hc. split_and!; [done| |].
      * destruct (is_group c) eqn:Hgc; [|done].
        apply group_leaf_exclusive in Hgc. congruence.
      * by apply leaf_children.
Qed.

(** C9.  The twelve leaf slugs are pairwise distinct, and so are the twelve
    leaf labels and the four group labels. *)
Theorem sidebar_names_distinct :
  (length (leaf_slugs sidebar) = 12 ∧ NoDup (leaf_slugs sidebar)) ∧
  (length (leaf_labels sidebar) = 12 ∧ NoDup (leaf_labels sidebar)) ∧
  (length (group_labels sidebar) = 4 ∧ NoDup (group_labels sidebar)).
Proof.
  split_and!; try reflexivity; by_evaluation.
Qed.

(** C10.  The content tree holds a document, [guides/dark-mode], with a
    valid front-matter, whose route no sidebar leaf names: the sidebar does
    not cover the content tree. *)
Theorem dark_mode_not_in_sidebar :
  ∃ d, d ∈ content_tree ∧
       route d = Some "guides/dark-mode" ∧
       valid_front_matter (front_matter d) = true ∧
       ("guides/dark-mode" ∉ leaf_slugs sidebar) ∧
       ¬ (routes ⊆ leaf_slugs sidebar).
Proof.
  exists dark_mode.
  assert ("guides/dark-mode" ∉ leaf_slugs sidebar) as Hout by by_evaluation.
  split_and!; [|reflexivity|reflexivity|exact Hout|].
  - unfold content_tree. do 2 apply list_elem_of_further. apply list_elem_of_here.
  - intros Hsub. apply Hout, Hsub.
    apply list_elem_of_omap. exists dark_mode. split; [|reflexivity].
    unfold content_tree. do 2 apply list_elem_of_further. apply list_elem_of_here.
Qed.


(** * The documented application code *)

(** ** Theme toggle *)

Section ThemeProperties.

Import Theme.




(** X2.  The logo follows the system theme when the theme is "system"; the
    animated background does not.  The two agree on dark against light for
    every theme other than "system", and disagree when the theme is
    "system" on a dark system. *)
Theorem logo_background_agree (theme systemTheme : option string) :
  theme ≠ Some "system" →
  (logo_src theme systemTheme = "/logo-dark.png" ↔
   background theme = "linear-gradient(45deg, #1a1a1a, #2d2d2d)").
Proof.
  intros Hsys. unfold logo_src, currentTheme, background.
  rewrite (bool_decide_eq_false_2 _ Hsys).
  by destruct (bool_decide (theme = Some "dark")).
Qed.

Lemma logo_background_agree_witness :
  logo_src (Some "dark") (Some "light") = "/logo-dark.png" ↔
  background (Some "dark") = "linear-gradient(45deg, #1a1a1a, #2d2d2d)".
Proof.
  apply (logo_background_agree (Some "dark") (Some "light")). discriminate.
Defined.

(** X3.  On a dark system with the theme left at "system", the logo is the
    dark one while the background animates to the light gradient; a light
    system theme or an unknown one gives the light logo. *)
Theorem logo_follows_system (systemTheme : option string) :
  (logo_src (Some "system") systemTheme = "/logo-dark.png" ↔ systemTheme = Some "dark") ∧
  background (Some "system") = "linear-gradient(45deg, #ffffff, #f8f9fa)".
Proof.
  split; [|reflexivity].
  unfold logo_src, currentTheme.
  rewrite (bool_decide_eq_true_2 (Some "system" = Some "system")) by done.
  destruct (decide (systemTheme = Some "dark")) as [->|Hne].
  - by rewrite bool_decide_eq_true_2.
  - rewrite (bool_decide_eq_false_2 _ Hne). split; [discriminate|done].
Qed.

End ThemeProperties.

(** ** Objects *)

Section Objects.

Import Rt.

Lemma own_app key (l1 l2 : list (string * Value)) :
  own key (l1 ++ l2)%list =
  match own key l2 with Some v => Some v | None => own key l1 end.
Proof.
  induction l1 as [|[k v] l1 IH]; simpl.
  - by destruct (own key l2).
  - rewrite IH. by destruct (own key l2).
Qed.

Lemma member_not_nullish key v :
  nullish v = false → member key v = Ok (opt_member key v).
Proof. unfold member. by intros ->. Qed.

Lemma member_nullish key v : nullish v = true → member key v = Throw type_error.
Proof. unfold member. by intros ->. Qed.

Lemma nullish_falsy v : nullish v = true → truthy v = false.
Proof. by destruct v. Qed.

End Objects.

(** ** SEO tags *)

Section SeoProperties.

Import Rt Seo.

(** X4.  [extraTags] is spread last: a key it names takes its value from
    there, the later one if it names it twice, and every other key is what
    it is without [extraTags]. *)
Theorem seo_extra_tags_last (cfg : Config) (a : SeoArgs) (key : string) :
  opt_member key (getSEOTags cfg a) =
  match extraTags a ≫= own key with
  | Some v => v
  | None => opt_member key (getSEOTags cfg (without_extra_tags a))
  end.
Proof.
  unfold getSEOTags, opt_member, without_extra_tags.
  cbn [extraTags title description canonicalUrlRelative].
  rewrite !own_app. destruct (extraTags a) as [tags|]; simpl; [|done].
  by destruct (own key tags).
Qed.

(** X5.  Unless [extraTags] replaces the [openGraph] or [twitter] object,
    their titles are the page title, the application name standing in for a
    missing or empty one; a [title] inside [extraTags] changes the top-level
    title only. *)
Theorem seo_social_titles (cfg : Config) (a : SeoArgs) :
  extraTags a ≫= own "openGraph" = None →
  extraTags a ≫= own "twitter" = None →
  opt_member "title" (opt_member "openGraph" (getSEOTags cfg a))
    = VStr (or_default (title a) (appName cfg)) ∧
  opt_member "title" (opt_member "twitter" (getSEOTags cfg a))
    = VStr (or_default (title a) (appName cfg)) ∧
  opt_member "title" (getSEOTags cfg a)
    = default (VStr (or_default (title a) (appName cfg)))
              (extraTags a ≫= own "title").
Proof.
  intros Hog Htw. unfold getSEOTags, opt_member at 2 4 5. rewrite !own_app.
  destruct (extraTags a) as [tags|]; simpl in Hog, Htw |- *.
  - rewrite Hog, Htw. simpl. by destruct (own "title" tags).
  - done.
Qed.

Lemma seo_social_titles_witness :
  let a := {| title := Some "Pricing"; description := None;
              canonicalUrlRelative := None;
              extraTags := Some [("title", VStr "Plans")] |} in
  opt_member "title" (opt_member "openGraph" (getSEOTags config a)) = VStr "Pricing" ∧
  opt_member "title" (opt_member "twitter" (getSEOTags config a)) = VStr "Pricing" ∧
  opt_member "title" (getSEOTags config a) = VStr "Plans".
Proof.
  intros a. apply (seo_social_titles config a); reflexivity.
Defined.

(** X6.  An empty title, description or canonical path counts as a missing
    one: the tags are those of the call without it, so an empty title gives
    the application name, an empty description the application's, and an
    empty canonical path the bare domain as Open Graph URL. *)
Theorem seo_empty_is_missing (cfg : Config) (a : SeoArgs) :
  getSEOTags cfg a =
  getSEOTags cfg {| title := blank_as_missing (title a);
                    description := blank_as_missing (description a);
                    canonicalUrlRelative := blank_as_missing (canonicalUrlRelative a);
                    extraTags := extraTags a |}.
Proof.
  destruct a as [[[|? ?]|] [[|? ?]|] [[|? ?]|] tags]; reflexivity.
Qed.

End SeoProperties.

(** ** API routes *)

Section LeadRoute.

Import Rt Api.

(** X7.  [POST /api/lead] answers exactly when the request body is JSON
    other than [null]: with 400 and "Email is required" when [email] is
    missing or falsy (so for any body that is not an object), with 200 and
    an empty object otherwise.  It never answers 500 and never sends the
    [success] flag; any truthy [email], a number or an object as well, is
    accepted. *)
Theorem lead_POST_answers (parsed : Result Value) (r : Response) :
  lead_POST parsed = Ok r ↔
  ∃ body, parsed = Ok body ∧ nullish body = false ∧
          r = if truthy (opt_member "email" body)
              then Json 200 (VObj [])
              else Json 400 (VObj [("error", VStr "Email is required")]).
Proof.
  unfold lead_POST. destruct parsed as [body|e]; simpl.
  - destruct (nullish body) eqn:Hnull.
    + rewrite (member_nullish _ _ Hnull). simpl.
      split; [discriminate|]. intros (b & [= <-] & Hb & _). congruence.
    + rewrite (member_not_nullish _ _ Hnull). simpl.
      destruct (truthy (opt_member "email" body)) eqn:Hemail; simpl;
        (split;
         [intros [= <-]; exists body; by rewrite Hemail
         |intros (b & [= <-] & _ & ->); by rewrite Hemail]).
  - split; [discriminate|]. by intros (b & [=] & _).
Qed.

End LeadRoute.

Section CheckoutRoute.

Import Rt Api.



(** X9.  A body with all four fields is never answered 400.  The answer is
    500, with the message of the exception, exactly when reading the user or
    the profile throws; otherwise it is 200 with the URL [createCheckout]
    returned.  Any truthy [mode] passes, and no signed-in user is asked
    for. *)
Theorem checkout_POST_complete (srv : Services) (body : Value) :
  nullish body = false →
  complete body = true →
  checkout_POST srv (Ok body) =
  Ok match getUser srv with
     | Throw e => Json 500 (VObj [("error", opt_member "message" e)])
     | Ok user =>
         match profile_of srv (opt_member "id" user) with
         | Throw e => Json 500 (VObj [("error", opt_member "message" e)])
         | Ok data =>
             Json 200 (VObj [("url", createCheckout (sessions_create srv)
                                       (checkout_params body user data))])
         end
     end.
Proof.
  intros Hbody Hcomplete. unfold checkout_POST. cbn [bind].
  rewrite (member_not_nullish _ _ Hbody). cbn [bind].
  unfold complete in Hcomplete.
  apply andb_prop in Hcomplete as [[[-> ->]%andb_prop ->]%andb_prop ->].
  cbn [negb orb]. unfold checkout_attempt.
  destruct (getUser srv) as [user|e]; cbn [bind try_catch]; [|done].
  by destruct (profile_of srv (opt_member "id" user)).
Qed.

Lemma checkout_POST_complete_witness :
  checkout_POST stripe_down (Ok example_body) = Ok (Json 200 (VObj [("url", VNull)])).
Proof.
  apply (checkout_POST_complete stripe_down example_body); reflexivity.
Defined.

(** X10.  [createCheckout] never throws: when Stripe cannot be reached or
    refuses the request it returns [null], and the route then answers 200
    with a [null] URL, not an error. *)
Theorem checkout_stripe_failure (srv : Services) (body user data : Value) :
  nullish body = false →
  complete body = true →
  getUser srv = Ok user →
  profile_of srv (opt_member "id" user) = Ok data →
  (∀ request, ∃ e, sessions_create srv request = Throw e) →
  checkout_POST srv (Ok body) = Ok (Json 200 (VObj [("url", VNull)])).
Proof.
  intros Hbody Hcomplete Huser Hdata Hdown. unfold checkout_POST. cbn [bind].
  rewrite (member_not_nullish _ _ Hbody). cbn [bind].
  unfold complete in Hcomplete.
  apply andb_prop in Hcomplete as [[[-> ->]%andb_prop ->]%andb_prop ->].
  cbn [negb orb]. unfold checkout_attempt. rewrite Huser. cbn [bind].
  rewrite Hdata. cbn [bind try_catch]. unfold createCheckout.
  by destruct (Hdown (session_request (checkout_params body user data))) as [e ->].
Qed.

Lemma checkout_stripe_failure_witness :
  checkout_POST stripe_down (Ok example_body) = Ok (Json 200 (VObj [("url", VNull)])).
Proof.
  apply (checkout_stripe_failure stripe_down example_body
           (VObj [("id", VStr "user-1")])
           (VObj [("email", VStr "user@example.com"); ("customer_id", VNull)]));
    try reflexivity.
  intros request. by eexists.
Defined.

(** X11.  The request [createCheckout] sends names a customer exactly when
    the profile has a truthy customer id, and then it names no customer
    e-mail, no customer creation, no payment intent data and no tax id
    collection.  Without a customer id it always collects tax ids, passes
    the e-mail when there is one, and asks for a customer to be created, with
    the card kept for later, only in [payment] mode. *)
Theorem session_request_customer (a : CreateCheckoutParams) :
  let request := spread (session_request a) in
  let customerId := opt_member "customerId" (user a) in
  let email := opt_member "email" (user a) in
  if truthy customerId then
    own "customer" request = Some customerId ∧
    own "customer_email" request = None ∧
    own "customer_creation" request = None ∧
    own "payment_intent_data" request = None ∧
    own "tax_id_collection" request = None
  else
    own "customer" request = None ∧
    own "customer_email" request = (if truthy email then Some email else None) ∧
    own "customer_creation" request =
      (if is_str "payment" (mode a) then Some (VStr "always") else None) ∧
    own "payment_intent_data" request =
      (if is_str "payment" (mode a)
       then Some (VObj [("setup_future_usage", VStr "on_session")]) else None) ∧
    own "tax_id_collection" request = Some (VObj [("enabled", VBool true)]).
Proof.
  cbn zeta. unfold session_request, spread, extraParams.
  destruct (truthy (opt_member "customerId" (user a))); [done|].
  destruct (is_str "payment" (mode a));
    by destruct (truthy (opt_member "email" (user a))).
Qed.

(** X12.  Through the route no coupon reaches Stripe: the request has an
    empty [discounts] list, promotion codes allowed, and one line item, the
    requested price once.  Without a signed-in user ([user] is [null]) the
    session carries no [client_reference_id]. *)
Theorem checkout_route_request (body signed_in data : Value) :
  let request := spread (session_request (checkout_params body signed_in data)) in
  own "discounts" request = Some (VArr []) ∧
  own "allow_promotion_codes" request = Some (VBool true) ∧
  own "line_items" request =
    Some (VArr [VObj [("price", opt_member "priceId" body);
                      ("quantity", VNum PrimFloat.one)]]) ∧
  own "client_reference_id" request =
    Some (if nullish signed_in then VUndefined else opt_member "id" signed_in).
Proof.
  cbn zeta. unfold session_request, spread, extraParams, checkout_params.
  cbn [user mode clientReferenceId successUrl cancelUrl priceId couponId truthy].
  assert (opt_member "id" signed_in
          = if nullish signed_in then VUndefined else opt_member "id" signed_in)
    as <- by (by destruct signed_in).
  destruct (truthy _); [done|].
  destruct (is_str _ _); by destruct (truthy _).
Qed.

End CheckoutRoute.

Section Email.

Import Rt Api.

(** X13.  [sendEmail] sends a [replyTo] exactly when it is given one that is
    truthy: left out, [null] or empty, the request has no such key.  It
    throws the error of the answer when there is one and returns the data
    otherwise. *)
Theorem sendEmail_replyTo (fromAdmin : string) (send : Value → Value * Value)
    (to subject text html replyTo : Value) :
  let request := email_request fromAdmin to subject text html replyTo in
  own "replyTo" (spread request) = (if truthy replyTo then Some replyTo else None) ∧
  own "from" (spread request) = Some (VStr fromAdmin) ∧
  sendEmail fromAdmin send to subject text html replyTo =
    (if truthy (send request).2 then Throw (send request).2 else Ok (send request).1).
Proof.
  cbn zeta. unfold sendEmail, email_request, spread, and_then.
  split_and!.
  - by destruct replyTo as [| |[]|f|[]| |]; try destruct (truthy (VNum f)) eqn:Hf.
  - by destruct replyTo as [| |[]|f|[]| |]; try destruct (truthy (VNum f)) eqn:Hf.
  - by destruct (send _) as [data error].
Qed.

End Email.

Section CookieStore.

Import Rt Api.

Context {Store : Type}.
Variable set : Cookie → Store → Result Store.

Lemma forEach_set_app pre post store store1 :
  set_each set pre store = Some store1 →
  forEach_set set (pre ++ post) store = forEach_set set post store1.
Proof.
  revert store. induction pre as [|c pre IH]; intros store; simpl.
  - by intros [= ->].
  - destruct (set c store) as [store'|e]; [apply IH|done].
Qed.

(** X25.  [setAll] of the server-side Supabase client never throws.  It sets
    the cookies in order up to the first one the store refuses: the cookies
    before it stay set, that one and all after it are dropped, and the
    caller is not told. *)
Theorem setAll_stops_silently (pre post : list Cookie) (c : Cookie)
    (store store1 : Store) (e : Value) :
  set_each set pre store = Some store1 →
  set c store1 = Throw e →
  setAll set (pre ++ c :: post) store = (Ok (), store1).
Proof.
  intros Hpre Hc. unfold setAll.
  rewrite (forEach_set_app pre (c :: post) store store1 Hpre).
  simpl. by rewrite Hc.
Qed.

(** X26.  When the store takes every cookie, [setAll] sets them all, in the
    order given. *)
Theorem setAll_sets_all (cookies : list Cookie) (store store1 : Store) :
  set_each set cookies store = Some store1 →
  setAll set cookies store = (Ok (), store1).
Proof.
  intros Hall. unfold setAll.
  rewrite <-(app_nil_r cookies), (forEach_set_app cookies [] store store1 Hall).
  done.
Qed.

End CookieStore.

Lemma setAll_stops_silently_witness :
  let a := {| Api.cookie_name := "sb-access-token"; Api.cookie_value := "x";
              Api.cookie_options := Rt.VUndefined |} in
  let bad := {| Api.cookie_name := ""; Api.cookie_value := "y";
                Api.cookie_options := Rt.VUndefined |} in
  Api.setAll Api.set_named ([a] ++ bad :: [a]) [] = (Rt.Ok (), [a]).
Proof.
  intros a bad.
  apply (setAll_stops_silently Api.set_named [a] [a] bad [] [a]
           (Rt.VObj [("message", Rt.VStr "invalid cookie name")])); reflexivity.
Defined.

Lemma setAll_sets_all_witness :
  let a := {| Api.cookie_name := "sb-access-token"; Api.cookie_value := "x";
              Api.cookie_options := Rt.VUndefined |} in
  let b := {| Api.cookie_name := "sb-refresh-token"; Api.cookie_value := "y";
              Api.cookie_options := Rt.VUndefined |} in
  Api.setAll Api.set_named [a; b] [] = (Rt.Ok (), [a; b]).
Proof.
  intros a b. apply (setAll_sets_all Api.set_named [a; b] [] [a; b]). reflexivity.
Defined.

(** ** The profiles table *)

Section Profiles.

Import Rt Db.

Lemma update_where_ids now cond p t : ids (update_where now cond p t) = ids t.
Proof.
  unfold ids, update_where. rewrite <-list_fmap_compose.
  apply list_fmap_ext. intros i r _. simpl. by destruct (cond r).
Qed.

Lemma update_where_lookup now cond p t (i : nat) :
  update_where now cond p t !! i =
  (λ r, if cond r then update_updated_at now (apply_patch p r) else r) <$> t !! i.
Proof. unfold update_where. apply list_lookup_fmap. Qed.

Lemma filter_none_by_id (t : Table) (x : string) :
  x ∉ ids t → filter (λ r, id r = x) t = [].
Proof.
  unfold ids. induction t as [|r t IH]; [done|].
  rewrite fmap_cons, not_elem_of_cons. intros [Hne Hx].
  rewrite filter_cons_False by done. by apply IH.
Qed.

(** With the primary key in force, the rows of one id are one row. *)
Lemma filter_by_id (t : Table) (r : Profile) :
  NoDup (ids t) → r ∈ t → filter (λ x, id x = id r) t = [r].
Proof.
  unfold ids. induction t as [|x t IH]; intros Hnodup Hr; [by apply elem_of_nil in Hr|].
  rewrite fmap_cons in Hnodup. apply NoDup_cons in Hnodup as [Hx Hnodup].
  apply elem_of_cons in Hr as [->|Hr].
  - rewrite filter_cons_True by done. f_equal. by apply filter_none_by_id.
  - rewrite filter_cons_False; [by apply IH|].
    intros Heq. apply Hx. rewrite Heq. by apply list_elem_of_fmap_2.
Qed.

Lemma rls_select_own (uid : string) (t : Table) :
  rls_select (Some uid) t = filter (λ r, id r = uid) t.
Proof.
  unfold rls_select, own_row. apply list_filter_iff. intros r.
  rewrite bool_decide_eq_true. split; [by intros [= ->]|by intros ->].
Qed.

Lemma rls_select_visitor (t : Table) : rls_select None t = [].
Proof.
  unfold rls_select, own_row. induction t as [|r t IH]; [done|].
  by rewrite filter_cons_False.
Qed.

(** X14.  Row level security and [getProfile]: the function returns a
    profile only to the signed-in user it belongs to, and to that user it
    does return it.  For a visitor, for somebody else's id and for an id
    without a profile the answer is [null]. *)
Theorem getProfile_own_only (uid : option string) (userId : string)
    (t : Table) (r : Profile) :
  NoDup (ids t) →
  getProfile uid userId t = Some r ↔ uid = Some userId ∧ r ∈ t ∧ id r = userId.
Proof.
  intros Hnodup. unfold getProfile. split.
  - destruct uid as [u|]; [|by rewrite rls_select_visitor].
    rewrite rls_select_own, list_filter_filter.
    destruct (filter _ t) as [|x [|]] eqn:Hrows; simpl; try done.
    intros [= ->].
    assert (r ∈ filter (λ x, id x = userId ∧ id x = u) t) as Hr
      by (rewrite Hrows; apply list_elem_of_here).
    apply list_elem_of_filter in Hr as [[<- <-] Hr]. done.
  - intros (-> & Hr & <-).
    rewrite rls_select_own, list_filter_filter.
    rewrite (list_filter_iff _ (λ x, id x = id r)) by (intros x; tauto).
    by rewrite (filter_by_id t r Hnodup Hr).
Qed.

Lemma getProfile_own_only_witness :
  let r := new_profile 1 {| user_id := "user-1"; user_email := None;
                            raw_user_meta_data := [] |} in
  getProfile (Some "user-2") "user-1" [r] = Some r ↔
  Some "user-2" = Some "user-1" ∧ r ∈ [r] ∧ id r = "user-1".
Proof.
  intros r. apply (getProfile_own_only (Some "user-2") "user-1" [r] r).
  apply NoDup_singleton.
Defined.

Lemma filter_none {A} (P : A → Prop) `{∀ x, Decision (P x)} (l : list A) :
  (∀ x, ¬ P x) → filter P l = [].
Proof.
  intros Hnone. induction l as [|x l IH]; [done|].
  by rewrite filter_cons_False.
Qed.

Lemma apply_patch_id p r : id (apply_patch p r) = id r.
Proof. done. Qed.

(** X15.  [updateUserAccess] for somebody else: a visitor, or a user naming an
    id that is not their own, gets the error and the table stays as it
    is. *)
Theorem updateUserAccess_others (uid : option string) (now : nat)
    (userId : string) (hasAccess : bool) (priceId : option string) (t : Table) :
  uid ≠ Some userId →
  updateUserAccess uid now userId hasAccess priceId t = (None, t).
Proof.
  intros Hother. unfold updateUserAccess.
  assert (filter (λ r, id r = userId)
            (rls_select uid
               (rls_update uid now (λ r, bool_decide (id r = userId))
                  {| set_name := None; set_email := None; set_image := None;
                     set_customer_id := None; set_price_id := Some <$> priceId;
                     set_has_access := Some (Some hasAccess) |} t)) = []) as ->; [|done].
  destruct uid as [u|]; [|by rewrite rls_select_visitor].
  rewrite rls_select_own, list_filter_filter.
  apply filter_none. intros x [-> ->]. by apply Hother.
Qed.

Lemma updateUserAccess_others_witness :
  updateUserAccess None 7 "user-1" true None
    [new_profile 1 {| user_id := "user-1"; user_email := None; raw_user_meta_data := [] |}]
  = (None, [new_profile 1 {| user_id := "user-1"; user_email := None; raw_user_meta_data := [] |}]).
Proof.
  apply (updateUserAccess_others None 7 "user-1" true None). discriminate.
Defined.

(** X16.  [updateUserAccess] for oneself: the policy "Users can update own
    profile" names no column, so a signed-in user who has a profile can set
    their own [has_access], and the price with it; the row comes back
    changed and stamped with the time of the update, and no other row
    changes. *)
Theorem updateUserAccess_self (now : nat) (hasAccess : bool)
    (priceId : option string) (t : Table) (r : Profile) :
  NoDup (ids t) →
  r ∈ t →
  ∃ r' t',
    updateUserAccess (Some (id r)) now (id r) hasAccess priceId t = (Some r', t') ∧
    r' ∈ t' ∧
    id r' = id r ∧
    has_access r' = Some hasAccess ∧
    price_id r' = default (price_id r) (Some <$> priceId) ∧
    updated_at r' = now ∧
    (∀ i x, t !! i = Some x → id x ≠ id r → t' !! i = Some x).
Proof.
  intros Hnodup Hr.
  set (patch := {| set_name := None; set_email := None; set_image := None;
                   set_customer_id := None; set_price_id := Some <$> priceId;
                   set_has_access := Some (Some hasAccess) |}).
  set (t' := rls_update (Some (id r)) now (λ x, bool_decide (id x = id r)) patch t).
  set (r' := update_updated_at now (apply_patch patch r)).
  assert (r' ∈ t') as Hr'.
  { apply list_elem_of_lookup in Hr as [i Hi].
    apply list_elem_of_lookup. exists i.
    unfold t', rls_update. rewrite update_where_lookup, Hi. simpl.
    unfold own_row. by rewrite !bool_decide_eq_true_2. }
  assert (NoDup (ids t')) as Hnodup'
    by (unfold t', rls_update; by rewrite update_where_ids).
  exists r', t'. split_and!; try done.
  - unfold updateUserAccess. fold patch. fold t'.
    rewrite rls_select_own.
    rewrite (list_filter_filter _ _ t').
    rewrite (list_filter_iff _ (λ x, id x = id r')) by (intros x; simpl; tauto).
    by rewrite (filter_by_id t' r' Hnodup' Hr').
  - intros i x Hi Hx. unfold t', rls_update. rewrite update_where_lookup, Hi.
    simpl. unfold own_row. rewrite (bool_decide_eq_false_2 (Some (id r) = Some (id x))); [done|].
    intros [= Heq]. by apply Hx.
Qed.

Lemma updateUserAccess_self_witness :
  let r := new_profile 1 {| user_id := "user-1"; user_email := None; raw_user_meta_data := [] |} in
  ∃ r' t',
    updateUserAccess (Some "user-1") 7 "user-1" true None [r] = (Some r', t') ∧
    r' ∈ t' ∧ id r' = "user-1" ∧ has_access r' = Some true ∧
    price_id r' = None ∧ updated_at r' = 7 ∧
    (∀ i x, [r] !! i = Some x → id x ≠ "user-1" → t' !! i = Some x).
Proof.
  intros r. apply (updateUserAccess_self 7 true None [r] r).
  - apply NoDup_singleton.
  - apply list_elem_of_here.
Defined.


Lemma sign_up_fresh now NEW s :
  consistent s →
  user_id NEW ∉ user_id <$> users s →
  sign_up now NEW s =
  Some {| users := users s ++ [NEW]; profiles := profiles s ++ [new_profile now NEW] |}.
Proof.
  intros [Hids _] Hfresh. unfold sign_up, handle_new_user, insert_profile.
  rewrite (bool_decide_eq_false_2 _ Hfresh).
  rewrite Hids. cbn [new_profile id]. by rewrite (bool_decide_eq_false_2 _ Hfresh).
Qed.



(** X18.  After a sign-up the new user reads, through [getProfile], the
    profile the trigger made: no access, no customer, no price, the name
    taken from [name] and, only when that is missing, from [full_name], the
    picture from [avatar_url]. *)
Theorem sign_up_profile (now : nat) (NEW : AuthUser) (s s' : State) :
  consistent s →
  sign_up now NEW s = Some s' →
  ∃ r, getProfile (Some (user_id NEW)) (user_id NEW) (profiles s') = Some r ∧
       has_access r = Some false ∧ customer_id r = None ∧ price_id r = None ∧
       email r = user_email NEW ∧
       name r = match meta_text "name" (raw_user_meta_data NEW) with
                | Some n => Some n
                | None => meta_text "full_name" (raw_user_meta_data NEW)
                end ∧
       image r = meta_text "avatar_url" (raw_user_meta_data NEW) ∧
       created_at r = now ∧ updated_at r = now.
Proof.
  intros Hs Hs'.
  assert (user_id NEW ∉ user_id <$> users s) as Hfresh
    by (unfold sign_up in Hs'; by case_bool_decide).
  rewrite (sign_up_fresh now NEW s Hs Hfresh) in Hs'. injection Hs' as <-.
  destruct Hs as [Hids Hnodup].
  exists (new_profile now NEW). split; [|by split_and!; try done; cbn; destruct (meta_text "name" _)].
  cbn [profiles]. unfold getProfile.
  rewrite rls_select_own, list_filter_filter.
  rewrite (list_filter_iff _ (λ x, id x = id (new_profile now NEW))) by (intros x; simpl; tauto).
  rewrite filter_by_id; [done| |].
  - unfold ids. rewrite fmap_app. fold (ids (profiles s)). rewrite Hids.
    apply NoDup_app. split_and!; [done| |apply NoDup_singleton].
    intros x Hx [= ->]%list_elem_of_singleton. by apply Hfresh.
  - apply elem_of_app. right. apply list_elem_of_here.
Qed.

Lemma sign_up_profile_witness :
  let NEW := {| user_id := "user-1"; user_email := Some "ada@example.com";
                raw_user_meta_data := [("full_name", "Ada Lovelace")] |} in
  ∃ r, getProfile (Some "user-1") "user-1" [new_profile 3 NEW] = Some r ∧
       has_access r = Some false ∧ customer_id r = None ∧ price_id r = None ∧
       email r = Some "ada@example.com" ∧
       name r = Some "Ada Lovelace" ∧
       image r = None ∧
       created_at r = 3 ∧ updated_at r = 3.
Proof.
  intros NEW.
  apply (sign_up_profile 3 NEW {| users := []; profiles := [] |}
           {| users := [NEW]; profiles := [new_profile 3 NEW] |}).
  - split; [reflexivity|apply NoDup_nil_2].
  - reflexivity.
Defined.

(** X24.  [removeUserAccess] reaches the caller's own row only.  Called by
    a visitor, or by a user other than the one who holds the Stripe customer
    id, it changes nothing; and as it asks for no row back, no error tells
    the caller so. *)
Theorem removeUserAccess_others (uid : option string) (now : nat)
    (stripeCustomerId : string) (t : Table) :
  (∀ r, r ∈ t → customer_id r = Some stripeCustomerId → uid ≠ Some (id r)) →
  removeUserAccess uid now stripeCustomerId t = t.
Proof.
  intros Hothers. unfold removeUserAccess, rls_update, update_where.
  rewrite <-(list_fmap_id t) at 2. apply list_fmap_ext. intros i r Hr.
  apply list_elem_of_lookup_2 in Hr. unfold own_row. simpl.
  destruct (decide (customer_id r = Some stripeCustomerId)) as [Hc|Hc].
  - by rewrite (bool_decide_eq_false_2 _ (Hothers r Hr Hc)).
  - by rewrite (bool_decide_eq_false_2 _ Hc), andb_false_r.
Qed.

Lemma removeUserAccess_others_witness :
  let r := update_updated_at 2
             (apply_patch {| set_name := None; set_email := None; set_image := None;
                             set_customer_id := Some (Some "cus_1");
                             set_price_id := Some (Some "price_123");
                             set_has_access := Some (Some true) |}
                (new_profile 1 {| user_id := "user-1"; user_email := None;
                                  raw_user_meta_data := [] |})) in
  removeUserAccess None 9 "cus_1" [r] = [r].
Proof.
  intros r. apply (removeUserAccess_others None 9 "cus_1" [r]). discriminate.
Defined.

End Profiles.

(** ** The Stripe webhook *)

Section Webhook.

Import Rt Db Api.

Lemma handle_event_unhandled retrieve now event db :
  type event ∉ handled_types → handle_event retrieve now event db = Ok db.
Proof.
  unfold handled_types. rewrite !not_elem_of_cons. intros (H1 & H2 & H3 & _).
  unfold handle_event.
  by rewrite (proj2 (String.eqb_neq _ _) H1), (proj2 (String.eqb_neq _ _) H2),
             (proj2 (String.eqb_neq _ _) H3).
Qed.

(** X19.  The webhook acts on three event types.  A verified event of any
    other type is answered 200 and changes no row; this includes
    [checkout.session.expired], [customer.subscription.updated] and
    [invoice.payment_failed], which the reference lists among the events
    handled. *)
Theorem webhook_unhandled_event
    (constructEvent : string → option string → Result Event)
    (retrieve : string → Result Session) (now : nat)
    (body : string) (signature : option string) (db : Table) (event : Event) :
  constructEvent body signature = Ok event →
  type event ∉ handled_types →
  webhook_POST constructEvent retrieve now body signature db
  = (Ok (Json 200 (VObj [])), db).
Proof.
  intros Hevent Htype. unfold webhook_POST. rewrite Hevent.
  by rewrite (handle_event_unhandled retrieve now event db Htype).
Qed.

Lemma webhook_unhandled_event_witness :
  let event := {| type := "invoice.payment_failed";
                  object := {| object_id := "in_1"; client_reference_id := None;
                               object_customer := "cus_1" |} |} in
  let db := [new_profile 1 {| user_id := "user-1"; user_email := None;
                              raw_user_meta_data := [] |}] in
  webhook_POST (λ _ _, Ok event) (λ _, Throw VNull) 9 "{}" (Some "t=1,v1=00") db
  = (Ok (Json 200 (VObj [])), db).
Proof.
  intros event db.
  apply (webhook_unhandled_event (λ _ _, Ok event) (λ _, Throw VNull) 9 "{}"
           (Some "t=1,v1=00") db event); [reflexivity|].
  unfold handled_types. rewrite !not_elem_of_cons. split_and!; try discriminate.
  apply not_elem_of_nil.
Defined.

Lemma update_where_keeps {B} (f : Profile → B) now cond p t :
  (∀ r, f (update_updated_at now (apply_patch p r)) = f r) →
  f <$> update_where now cond p t = f <$> t.
Proof.
  intros Hf. unfold update_where. rewrite <-list_fmap_compose.
  apply list_fmap_ext. intros i r _. simpl. destruct (cond r); [apply Hf|done].
Qed.

(** X20.  Whatever the request, the webhook adds no row, removes none and
    moves none, and writes only the billing columns: the ids, names,
    e-mails, pictures and creation times of the table are the same
    afterwards, in the same order.  Once the signature is verified the answer
    is 200 with an empty object, whether or not handling the event
    worked. *)
Theorem webhook_frame
    (constructEvent : string → option string → Result Event)
    (retrieve : string → Result Session) (now : nat)
    (body : string) (signature : option string) (db : Table) :
  let out := webhook_POST constructEvent retrieve now body signature db in
  (id <$> out.2) = (id <$> db) ∧
  (name <$> out.2) = (name <$> db) ∧
  (email <$> out.2) = (email <$> db) ∧
  (image <$> out.2) = (image <$> db) ∧
  (created_at <$> out.2) = (created_at <$> db) ∧
  match constructEvent body signature with
  | Ok _ => out.1 = Ok (Json 200 (VObj []))
  | Throw err => out.2 = db ∧
      out.1 = bind (member "message" err) (λ m, Ok (Json 400 (VObj [("error", m)])))
  end.
Proof.
  cbn zeta. unfold webhook_POST.
  destruct (constructEvent body signature) as [event|err]; cbn [fst snd].
  2: { split_and!; try done. }
  assert (∀ {B} (f : Profile → B),
            (∀ now p r, set_name p = None → set_email p = None → set_image p = None →
                        f (update_updated_at now (apply_patch p r)) = f r) →
            f <$> match handle_event retrieve now event db with
                  | Ok db' => db' | Throw _ => db end = f <$> db) as Hkeeps.
  { intros B f Hf. unfold handle_event.
    destruct (String.eqb (type event) "checkout.session.completed").
    - destruct (first_price_id _) as [pid|]; cbn [bind]; [|done].
      apply update_where_keeps. intros r. by apply Hf.
    - destruct (String.eqb (type event) "customer.subscription.deleted");
        [apply update_where_keeps; intros r; by apply Hf|].
      destruct (String.eqb (type event) "invoice.paid");
        [apply update_where_keeps; intros r; by apply Hf|done]. }
  split_and!; try (apply Hkeeps; intros ? p r Hn He Hi; cbn; by rewrite ?Hn, ?He, ?Hi).
  done.
Qed.



(** X22.  [checkout.session.completed] changes nothing, and the webhook
    still answers 200, when the session has no [client_reference_id] or
    when its first line item has no price: in the second case the exception
    is caught before the update, so the customer who paid gets no access. *)
Theorem checkout_completed_without_effect
    (constructEvent : string → option string → Result Event)
    (retrieve : string → Result Session) (now : nat)
    (body : string) (signature : option string) (db : Table) (o : StripeObject) :
  constructEvent body signature
    = Ok {| type := "checkout.session.completed"; object := o |} →
  client_reference_id o = None ∨
  (∃ s items, retrieve (object_id o) = Ok s ∧
              line_items s = Some ({| price := None |} :: items)) →
  webhook_POST constructEvent retrieve now body signature db
  = (Ok (Json 200 (VObj [])), db).
Proof.
  intros Hevent Hcase. unfold webhook_POST. rewrite Hevent. f_equal.
  unfold handle_event. cbn [type object].
  change (String.eqb "checkout.session.completed" "checkout.session.completed") with true.
  cbn match. destruct Hcase as [Hnone|(s & items & Hs & Hitems)].
  - destruct (first_price_id _); cbn [bind]; [|done].
    rewrite Hnone. unfold update_where.
    rewrite <-(list_fmap_id db) at 2. apply list_fmap_ext. intros i r _.
    by rewrite bool_decide_eq_false_2.
  - unfold findCheckoutSession. rewrite Hs. unfold first_price_id. by rewrite Hitems.
Qed.

Lemma checkout_completed_without_effect_witness :
  let o := {| object_id := "cs_1"; client_reference_id := Some "user-1";
              object_customer := "" |} in
  let db := [new_profile 1 {| user_id := "user-1"; user_email := None;
                              raw_user_meta_data := [] |}] in
  webhook_POST
    (λ _ _, Ok {| type := "checkout.session.completed"; object := o |})
    (λ _, Ok {| customer := Some "cus_1"; line_items := Some [{| price := None |}] |})
    5 "{}" (Some "t=1,v1=00") db
  = (Ok (Json 200 (VObj [])), db).
Proof.
  intros o db.
  apply (checkout_completed_without_effect
           (λ _ _, Ok {| type := "checkout.session.completed"; object := o |})
           (λ _, Ok {| customer := Some "cus_1"; line_items := Some [{| price := None |}] |})
           5 "{}" (Some "t=1,v1=00") db o); [reflexivity|].
  right. by exists {| customer := Some "cus_1"; line_items := Some [{| price := None |}] |}, [].
Defined.

(** X23.  Of [invoice.paid] and [customer.subscription.deleted] for one
    customer the later event decides: the table after both is the table
    after the later one alone.  Each of the two is idempotent, and neither
    touches the customer id or the price. *)
Theorem billing_last_event_wins
    (retrieve : string → Result Session) (now1 now2 : nat)
    (o : StripeObject) (db : Table) :
  let paid := {| type := "invoice.paid"; object := o |} in
  let deleted := {| type := "customer.subscription.deleted"; object := o |} in
  bind (handle_event retrieve now1 paid db) (handle_event retrieve now2 deleted)
    = handle_event retrieve now2 deleted db ∧
  bind (handle_event retrieve now1 deleted db) (handle_event retrieve now2 paid)
    = handle_event retrieve now2 paid db ∧
  bind (handle_event retrieve now1 paid db) (handle_event retrieve now2 paid)
    = handle_event retrieve now2 paid db ∧
  bind (handle_event retrieve now1 deleted db) (handle_event retrieve now2 deleted)
    = handle_event retrieve now2 deleted db.
Proof.
  cbn zeta. unfold handle_event. cbn [type object bind].
  change (String.eqb "invoice.paid" "checkout.session.completed") with false.
  change (String.eqb "invoice.paid" "customer.subscription.deleted") with false.
  change (String.eqb "invoice.paid" "invoice.paid") with true.
  change (String.eqb "customer.subscription.deleted" "checkout.session.completed") with false.
  change (String.eqb "customer.subscription.deleted" "customer.subscription.deleted") with true.
  cbn match. cbn [bind]. unfold update_where.
  split_and!; f_equal; rewrite <-list_fmap_compose; apply list_fmap_ext;
    intros i r _; simpl;
    destruct (bool_decide (customer_id r = Some (object_customer o))) eqn:Hc;
    simpl; by rewrite ?Hc.
Qed.

End Webhook.
